(** * Downtime statistics of [server/client.js]

    A shallow embedding of [sendDowntimeStats] and of its local helper
    [formatTime], with the properties of the downtime aggregation stated
    in the specification.

    Conventions of the embedding.
    - A timestamp ([beat.time], [startTime], [endTime]) is represented by the
      number [new Date(t)] converts to in the subtraction of line 89, i.e.
      milliseconds since the epoch, an integer [Z].  The SQL comparisons of
      the heartbeat query are read on the same clock.
    - A JS number is the rational value [Q] of an IEEE double.  The
      subtraction and the division of lines 89 and 107 and the [+=] of lines
      91 and 109 round their exact result to the nearest double, ties to
      even ([Js.sub], [Js.div], [Js.add]); the exponent range is not bounded,
      which no value made from Date numbers reaches.  [formatTime] is read on
      the value of the double it receives.
    - The heartbeat query compares the stored text of the [time] column with
      [datetime(?)]; how SQLite decides these two comparisons is a parameter
      of the database, and the comparisons of SQLite for a column written to
      the millisecond or to the second are given as instances.
    - [downTime] is [null] or a timestamp: [option Z]; [new Date(null)] is
      the epoch.
    - The two arrays [downtimeStats] and [totalDowntimeStats] are shared by
      all the callbacks of [Promise.all]; they are threaded as a state, and
      [push] appends at the end. *)

From Stdlib Require Import ZArith QArith Qround Qreduction List String Ascii.
From Stdlib Require Import Bool Lia Sorted Permutation DecimalString SpecFloat.
Import ListNotations.

Open Scope Z_scope.

(** ** JavaScript primitives used by the code *)

Module Js.

(** [String(n)] for an integral number [n]: its decimal notation, with a
    minus sign when negative (what JS prints below 1e21). *)
Definition String_ (n : Z) : string :=
  NilZero.string_of_int (Z.to_int n).

Fixpoint repeat_char (c : ascii) (n : nat) : string :=
  match n with
  | O => EmptyString
  | S k => String c (repeat_char c k)
  end.

(** [s.padStart(n, c)] with a one-character filler. *)
Definition padStart (n : nat) (c : ascii) (s : string) : string :=
  (repeat_char c (n - String.length s) ++ s)%string.

(** [Math.floor]. *)
Definition Math_floor (x : Q) : Z := Qfloor x.

(** Rounding towards zero, the integral quotient of [%]. *)
Definition trunc (x : Q) : Z := Z.quot (Qnum x) (Zpos (Qden x)).

(** [a % b]: the remainder has the sign of the dividend. *)
Definition rem (a b : Q) : Q :=
  (a - b * inject_Z (trunc (a / b)))%Q.

(** [new Date(t)] as the number it converts to, a whole number of
    milliseconds of at most 8.64e15 in magnitude and so a double;
    [new Date(null)] is 0. *)
Definition Date (t : option Z) : Z :=
  match t with
  | Some ms => ms
  | None => 0
  end.

(** The integer nearest to [p / r] for [r > 0], the even one of two that are
    equally near. *)
Definition roundHalfEven (p r : Z) : Z :=
  let f := p / r in
  let twice := 2 * (p mod r) in
  if twice <? r then f
  else if r <? twice then f + 1
  else if Z.even f then f else f + 1.

(** The [e] with [2 ^ e <= n / d < 2 ^ (e + 1)], for [n > 0] and [d > 0]. *)
Definition exponent (n d : Z) : Z :=
  let k := Z.log2 n - Z.log2 d in
  if d * 2 ^ Z.max 0 k <=? n * 2 ^ Z.max 0 (- k) then k else k - 1.

(** The double nearest to the rational [x]: [x] is scaled to a significand
    of 53 bits, the significand is rounded to an integer, ties to even, and
    scaled back.  This is the rounding of binary64 wherever the result is
    neither below [2 ^ -1022] nor above the largest double in magnitude. *)
Definition fl (x : Q) : Q :=
  let x := Qred x in
  let n := Z.abs (Qnum x) in
  let d := Zpos (Qden x) in
  if n =? 0 then 0%Q
  else
    let q := exponent n d - 52 in
    let m := roundHalfEven (n * 2 ^ Z.max 0 (- q)) (d * 2 ^ Z.max 0 q) in
    Qred (Z.sgn (Qnum x) * m * 2 ^ Z.max 0 q # Z.to_pos (2 ^ Z.max 0 (- q))).

(** [x + y], [x - y] and [x / y] on doubles. *)
Definition add (x y : Q) : Q := fl (x + y).
Definition sub (x y : Q) : Q := fl (x - y).
Definition div (x y : Q) : Q := fl (x / y).

End Js.

(** ** [formatTime] (lines 53-58) *)

Definition formatTime (time : Q) : string :=
  let hours := Js.padStart 2 "0" (Js.String_ (Js.Math_floor (time / 3600))) in
  let minutes :=
    Js.padStart 2 "0" (Js.String_ (Js.Math_floor (Js.rem time 3600 / 60))) in
  let seconds := Js.padStart 2 "0" (Js.String_ (Js.Math_floor (Js.rem time 60))) in
  (hours ++ ":" ++ minutes ++ ":" ++ seconds)%string.

(** ** Data *)

(** A row of [SELECT id, name, url FROM monitor]. *)
Record monitor : Type := { id : Z; name : string; url : string }.

(** The columns of a heartbeat row the code reads: [beat.time] and
    [beat.status] (0 is down, 1 is up; other values exist, such as pending
    and maintenance). *)
Record heartbeat : Type := { time : Z; status : Z }.

(** An element of [downtimeStats]. *)
Module Downtime.
Record entry : Type := {
  monitor_id : Z;
  monitor_name : string;
  monitor_url : string;
  downTime : option Z;
  upTime : Z;
  duration : string
}.
End Downtime.

(** An element of [totalDowntimeStats]. *)
Module Total.
Record entry : Type := {
  monitor_id : Z;
  monitor_name : string;
  monitor_url : string;
  downTime : string
}.
End Total.

(** The variables of one callback of [monitorList.map] (lines 76-78). *)
Record locals : Type := {
  isDown : bool;
  downTime : option Z;
  totalDowntime : Q
}.

(** The two arrays of lines 50-51, shared by every callback. *)
Record arrays : Type := {
  downtimeStats : list Downtime.entry;
  totalDowntimeStats : list Total.entry
}.

Definition push {A : Type} (arr : list A) (x : A) : list A := arr ++ [x].

(** ** One callback of [Promise.all] (lines 76-127) *)

(** [(new Date(upTime) - new Date(downTime)) / 1000]. *)
Definition secondsBetween (upTime : option Z) (downTime : option Z) : Q :=
  Js.div (Js.sub (inject_Z (Js.Date upTime)) (inject_Z (Js.Date downTime)))
    1000.

(** The body of [heartbeats.forEach] (lines 82-103): two consecutive [if]s. *)
Definition forEachBody (monitor : monitor)
    (st : locals * list Downtime.entry) (beat : heartbeat)
    : locals * list Downtime.entry :=
  let '(v, stats) := st in
  let v :=
    if (status beat =? 0) && negb (isDown v)
    then {| isDown := true; downTime := Some (time beat);
            totalDowntime := totalDowntime v |}
    else v in
  if isDown v && (status beat =? 1)
  then
    let upTime := time beat in
    let timeDifferenceSec := secondsBetween (Some upTime) (downTime v) in
    let timeDifference := formatTime timeDifferenceSec in
    ({| isDown := false; downTime := None;
        totalDowntime := Js.add (totalDowntime v) timeDifferenceSec |},
     push stats
       {| Downtime.monitor_id := id monitor;
          Downtime.monitor_name := name monitor;
          Downtime.monitor_url := url monitor;
          Downtime.downTime := downTime v;
          Downtime.upTime := upTime;
          Downtime.duration := timeDifference |})
  else (v, stats).

Definition initialLocals : locals :=
  {| isDown := false; downTime := None; totalDowntime := 0%Q |}.

(** Lines 106-118: the outage still open after the loop. *)
Definition closeAtEnd (monitor : monitor) (endTime : Z)
    (st : locals * list Downtime.entry) : locals * list Downtime.entry :=
  let '(v, stats) := st in
  if isDown v
  then
    let timeDifferenceSec := secondsBetween (Some endTime) (downTime v) in
    let timeDifference := formatTime timeDifferenceSec in
    ({| isDown := isDown v; downTime := downTime v;
        totalDowntime := Js.add (totalDowntime v) timeDifferenceSec |},
     push stats
       {| Downtime.monitor_id := id monitor;
          Downtime.monitor_name := name monitor;
          Downtime.monitor_url := url monitor;
          Downtime.downTime := downTime v;
          Downtime.upTime := endTime;
          Downtime.duration := timeDifference |})
  else (v, stats).

(** The part of a callback that runs once its heartbeat query has completed:
    the loop, the closing of an open outage, and the push of the total. *)
Definition monitorTask (monitor : monitor) (heartbeats : list heartbeat)
    (endTime : Z) (a : arrays) : arrays :=
  let afterLoop :=
    fold_left (forEachBody monitor) heartbeats (initialLocals, downtimeStats a) in
  let '(v, stats) := closeAtEnd monitor endTime afterLoop in
  let timeDifference := formatTime (totalDowntime v) in
  {| downtimeStats := stats;
     totalDowntimeStats :=
       push (totalDowntimeStats a)
         {| Total.monitor_id := id monitor;
            Total.monitor_name := name monitor;
            Total.monitor_url := url monitor;
            Total.downTime := timeDifference |} |}.

(** ** The database and the whole pass (lines 48-131) *)

(** The tables the two queries read, and the two comparisons of the
    heartbeat query.  A heartbeat row is paired with its [monitor_id] column.
    [time_ge_datetime b p] is the outcome of [time >= datetime(p)] on the row
    [b], [time_le_datetime b p] that of [time <= datetime(p)]: SQLite
    compares the text stored in the column with the text [datetime] makes of
    the parameter. *)
Record Database : Type := {
  monitor_table : list monitor;
  heartbeat_table : list (Z * heartbeat);
  time_ge_datetime : heartbeat -> Z -> bool;
  time_le_datetime : heartbeat -> Z -> bool
}.

(** The comparisons of SQLite when the column holds
    ['YYYY-MM-DD HH:MM:SS.SSS'] and the parameter is on the clock of the
    column: [datetime] cuts the parameter to the whole second, and a text
    with a fraction sorts after the text of its own second. *)
Definition millisText_ge (b : heartbeat) (p : Z) : bool :=
  p / 1000 <=? time b / 1000.

Definition millisText_le (b : heartbeat) (p : Z) : bool :=
  time b / 1000 <? p / 1000.

(** The same when the column holds ['YYYY-MM-DD HH:MM:SS']. *)
Definition secondText_ge (b : heartbeat) (p : Z) : bool :=
  p / 1000 <=? time b / 1000.

Definition secondText_le (b : heartbeat) (p : Z) : bool :=
  time b / 1000 <=? p / 1000.

(** [ORDER BY time ASC]: a stable insertion sort, rows of equal time stay in
    table order.  SQL leaves the order of such rows open; every such order is
    the table order of some table. *)
Fixpoint insertByTime (b : heartbeat) (l : list heartbeat) : list heartbeat :=
  match l with
  | [] => [b]
  | x :: r => if time b <=? time x then b :: x :: r else x :: insertByTime b r
  end.

Definition orderByTime (l : list heartbeat) : list heartbeat :=
  fold_right insertByTime [] l.

(** [SELECT * FROM heartbeat WHERE monitor_id = ? AND time >= datetime(?)
     AND time <= datetime(?) ORDER BY time ASC] (lines 65-74). *)
Definition heartbeat_query (db : Database) (monitor_id startTime endTime : Z)
    : list heartbeat :=
  orderByTime
    (map snd
       (filter
          (fun row =>
             (fst row =? monitor_id)
             && time_ge_datetime db (snd row) startTime
             && time_le_datetime db (snd row) endTime)
          (heartbeat_table db))).

(** What the pass does to the outside: the queries it issues and the message
    it emits on the socket. *)
Inductive event : Type :=
| GetAllMonitors
| GetAllHeartbeats (monitor_id startTime endTime : Z)
| Emit (payload : arrays).

(** The arrays once every callback has run.  Each callback awaits only its
    own query and then runs to its end without suspending, so the callbacks
    run one after the other in the order [completion] in which their queries
    complete. *)
Definition runCallbacks (db : Database) (completion : list monitor)
    (startTime endTime : Z) : arrays :=
  fold_left
    (fun a monitor =>
       monitorTask monitor (heartbeat_query db (id monitor) startTime endTime)
         endTime a)
    completion
    {| downtimeStats := []; totalDowntimeStats := [] |}.

(** [completion] is a possible completion order: every callback completes
    exactly once. *)
Definition completionOrder (db : Database) (completion : list monitor) : Prop :=
  Permutation (monitor_table db) completion.

(** [sendDowntimeStats(socket, startTime, endTime)]: the monitor query, one
    heartbeat query per monitor issued by [monitorList.map] in list order,
    and the emission of both arrays. *)
Definition sendDowntimeStats (db : Database) (completion : list monitor)
    (startTime endTime : Z) : list event :=
  let monitorList := monitor_table db in
  GetAllMonitors
    :: map (fun monitor => GetAllHeartbeats (id monitor) startTime endTime)
         monitorList
    ++ [Emit (runCallbacks db completion startTime endTime)].


(** ** Derived notions used in the statements *)

Definition noArrays : arrays :=
  {| downtimeStats := []; totalDowntimeStats := [] |}.

(** The loop of one callback, started in [v] on an empty array. *)
Definition loop (monitor : monitor) (heartbeats : list heartbeat) (v : locals)
    : locals * list Downtime.entry :=
  fold_left (forEachBody monitor) heartbeats (v, []).

(** The locals of a callback when it pushes its total (line 121). *)
Definition finalLocals (monitor : monitor) (heartbeats : list heartbeat)
    (endTime : Z) : locals :=
  fst (closeAtEnd monitor endTime (loop monitor heartbeats initialLocals)).

(** What one callback pushes on [downtimeStats] and on [totalDowntimeStats]. *)
Definition intervalsOf (monitor : monitor) (heartbeats : list heartbeat)
    (endTime : Z) : list Downtime.entry :=
  downtimeStats (monitorTask monitor heartbeats endTime noArrays).

Definition totalsOf (monitor : monitor) (heartbeats : list heartbeat)
    (endTime : Z) : list Total.entry :=
  totalDowntimeStats (monitorTask monitor heartbeats endTime noArrays).

(** The start and the end of an emitted interval, and its length in seconds
    computed as the code computes it. *)
Definition downAt (i : Downtime.entry) : Z := Js.Date (Downtime.downTime i).
Definition upAt (i : Downtime.entry) : Z := Downtime.upTime i.

Definition seconds (i : Downtime.entry) : Q :=
  secondsBetween (Some (Downtime.upTime i)) (Downtime.downTime i).

(** The sum of the lengths, added in emission order onto [acc]. *)
Definition sumSeconds (acc : Q) (l : list Downtime.entry) : Q :=
  fold_left (fun t i => Js.add t (seconds i)) l acc.

(** Consecutive intervals starting at or after [lo]: each one is well formed
    and the next one starts at or after its end. *)
Fixpoint chained (lo : Z) (l : list Downtime.entry) : Prop :=
  match l with
  | [] => True
  | i :: r => lo <= downAt i /\ downAt i <= upAt i /\ chained (upAt i) r
  end.

(** The same with intervals of positive length. *)
Fixpoint chainedStrict (lo : Z) (l : list Downtime.entry) : Prop :=
  match l with
  | [] => True
  | i :: r => lo <= downAt i /\ downAt i < upAt i /\ chainedStrict (upAt i) r
  end.

Definition ascending (l : list heartbeat) : Prop :=
  StronglySorted (fun a b => time a <= time b) l.

Definition strictlyAscending (l : list heartbeat) : Prop :=
  StronglySorted (fun a b => time a < time b) l.

(** The payload of the emission, if the pass emits. *)
Fixpoint emitted (tr : list event) : option arrays :=
  match tr with
  | [] => None
  | Emit p :: _ => Some p
  | _ :: r => emitted r
  end.

Definition isQuery (ev : event) : bool :=
  match ev with
  | GetAllMonitors | GetAllHeartbeats _ _ _ => true
  | Emit _ => false
  end.

(** ** Auxiliary definitions of the proofs and the examples *)

(** The locals after the first [if] has fired (lines 83-84), after the
    second has (lines 87-102), and the entry the second, or the closing of
    an open outage, pushes. *)
Definition opened (v : locals) (beat : heartbeat) : locals :=
  {| isDown := true; downTime := Some (time beat);
     totalDowntime := totalDowntime v |}.

Definition closed (v : locals) (beat : heartbeat) : locals :=
  {| isDown := false; downTime := None;
     totalDowntime :=
       Js.add (totalDowntime v)
         (secondsBetween (Some (time beat)) (downTime v)) |}.

Definition closing (monitor : monitor) (v : locals) (upTime : Z)
    : Downtime.entry :=
  {| Downtime.monitor_id := id monitor;
     Downtime.monitor_name := name monitor;
     Downtime.monitor_url := url monitor;
     Downtime.downTime := downTime v;
     Downtime.upTime := upTime;
     Downtime.duration :=
       formatTime (secondsBetween (Some upTime) (downTime v)) |}.

(** The loop followed by the closing of an open outage, from any state. *)
Definition intervalsFrom (monitor : monitor) (heartbeats : list heartbeat)
    (endTime : Z) (v : locals) : list Downtime.entry :=
  snd (closeAtEnd monitor endTime (loop monitor heartbeats v)).

(** A state is well formed below [lo] when an open outage has a start, at or
    before [lo]. *)
Definition openBefore (v : locals) (lo : Z) : Prop :=
  isDown v = true -> exists d, downTime v = Some d /\ d <= lo.

(** The heartbeats the callback of [m] receives. *)
Definition beatsOf (db : Database) (startTime endTime : Z) (m : monitor)
    : list heartbeat :=
  heartbeat_query db (id m) startTime endTime.

(** Two monitors and a table of heartbeats for the examples. *)
Definition monitorA : monitor := {| id := 1; name := "A"; url := "http://a" |}.
Definition monitorB : monitor := {| id := 2; name := "B"; url := "http://b" |}.

Definition beat (t s : Z) : heartbeat := {| time := t; status := s |}.

(** Monitor 1 is seen down at 00:10:00 and at 00:15:00, up at 00:25:00 and
    down again at 00:50:00; monitor 2 is up; times are in milliseconds. *)
Definition demoDb : Database :=
  {| monitor_table := [monitorA; monitorB];
     heartbeat_table :=
       [ (1, beat 3000000 0); (2, beat 100000 1); (1, beat 600000 0);
         (1, beat 1500000 1); (2, beat 900000 1); (1, beat 60000 1);
         (1, beat 900000 0) ];
     time_ge_datetime := millisText_ge;
     time_le_datetime := millisText_le |}.

(** A database whose time column is written to the second, with one
    heartbeat, down, at second 0. *)
Definition secondDb : Database :=
  {| monitor_table := [monitorA];
     heartbeat_table := [(1, beat 0 0)];
     time_ge_datetime := secondText_ge;
     time_le_datetime := secondText_le |}.

(** A pass rejected before any fetch would issue no query and emit nothing. *)
Definition rejectedBeforeFetch (tr : list event) : Prop :=
  existsb isQuery tr = false /\ emitted tr = None.

(** The total of a monitor with no downtime. *)
Definition zeroTotal (m : monitor) : Total.entry :=
  {| Total.monitor_id := id m;
     Total.monitor_name := name m;
     Total.monitor_url := url m;
     Total.downTime := "00:00:00" |}.

(** Three short outages that last one second together. *)
Definition roundingBeats : list heartbeat :=
  [ beat 0 0; beat 30 1; beat 1000 0; beat 1282 1; beat 2000 0; beat 2688 1 ].

(** Heartbeats sharing a time, and heartbeats at distinct times. *)
Definition tiedBeats : list heartbeat :=
  [beat 5000 0; beat 5000 1; beat 5000 0; beat 6000 1].

Definition spacedBeats : list heartbeat :=
  [beat 600000 0; beat 1500000 1; beat 3000000 0].

(** The character of a decimal digit. *)
Definition digit (d : Z) : ascii := ascii_of_nat (48 + Z.to_nat d).

(** The two decimal digits of a number below 100. *)
Definition twoDigits (k : Z) : string :=
  String (digit (k / 10)) (String (digit (k mod 10)) EmptyString).

(** ** The other senders of the file *)

(** [ORDER BY time DESC] over rows of any shape: a stable insertion sort on
    the time of a row, latest first. *)
Fixpoint insertByTimeDesc {A : Type} (timeOf : A -> Z) (x : A) (l : list A)
    : list A :=
  match l with
  | [] => [x]
  | y :: r =>
      if timeOf y <=? timeOf x then x :: y :: r
      else y :: insertByTimeDesc timeOf x r
  end.

Definition orderByTimeDesc {A : Type} (timeOf : A -> Z) (l : list A) : list A :=
  fold_right (insertByTimeDesc timeOf) [] l.

(** The part of a socket the senders read: [socket.userID]. *)
Record socket : Type := { userID : Z }.

(** Where a sender emits: on the socket itself ([socket.emit]) or to every
    socket of a user ([io.to(socket.userID).emit]). *)
Inductive destination : Type :=
| ToSocket
| ToUser (userID : Z).

(** [SELECT * FROM heartbeat WHERE monitor_id = ? ORDER BY time DESC
     LIMIT 100] (lines 137-144). *)
Definition heartbeatListQuery (db : Database) (monitorID : Z) : list heartbeat :=
  firstn 100
    (orderByTimeDesc time
       (map snd (filter (fun row => fst row =? monitorID) (heartbeat_table db)))).

(** The ["heartbeatList"] message. *)
Record heartbeatListMessage : Type := {
  hl_destination : destination;
  hl_monitorID : Z;
  hl_result : list heartbeat;
  hl_overwrite : bool
}.

(** [sendHeartbeatList(socket, monitorID, toUser, overwrite)] (lines 134-155);
    the time logger is left out. *)
Definition sendHeartbeatList (db : Database) (socket : socket) (monitorID : Z)
    (toUser overwrite : bool) : heartbeatListMessage :=
  let list := heartbeatListQuery db monitorID in
  let result := rev list in
  if toUser
  then {| hl_destination := ToUser (userID socket);
          hl_monitorID := monitorID;
          hl_result := result;
          hl_overwrite := overwrite |}
  else {| hl_destination := ToSocket;
          hl_monitorID := monitorID;
          hl_result := result;
          hl_overwrite := overwrite |}.

(** A heartbeat bean with the columns [sendImportantHeartbeatList] selects
    on. *)
Module Bean.
Record heartbeat : Type := {
  monitor_id : Z;
  important : Z;
  time : Z;
  status : Z
}.
End Bean.

(** [R.find("heartbeat", "monitor_id = ? AND important = 1 ORDER BY time DESC
     LIMIT 500")] (lines 168-175). *)
Definition importantHeartbeatQuery (table : list Bean.heartbeat) (monitorID : Z)
    : list Bean.heartbeat :=
  firstn 500
    (orderByTimeDesc Bean.time
       (filter
          (fun b => (Bean.monitor_id b =? monitorID) && (Bean.important b =? 1))
          table)).

(** The ["importantHeartbeatList"] message. *)
Record importantHeartbeatListMessage : Type := {
  ihl_destination : destination;
  ihl_monitorID : Z;
  ihl_list : list Bean.heartbeat;
  ihl_overwrite : bool
}.

(** [sendImportantHeartbeatList(socket, monitorID, toUser, overwrite)]
    (lines 165-185); the time logger is left out. *)
Definition sendImportantHeartbeatList (table : list Bean.heartbeat)
    (socket : socket) (monitorID : Z) (toUser overwrite : bool)
    : importantHeartbeatListMessage :=
  let list := importantHeartbeatQuery table monitorID in
  if toUser
  then {| ihl_destination := ToUser (userID socket);
          ihl_monitorID := monitorID;
          ihl_list := list;
          ihl_overwrite := overwrite |}
  else {| ihl_destination := ToSocket;
          ihl_monitorID := monitorID;
          ihl_list := list;
          ihl_overwrite := overwrite |}.

(** A notification bean, and the object [bean.export()] makes of it once the
    two flags have been turned into booleans (lines 26-28). *)
Module Notification.
Record bean : Type := {
  id : Z;
  user_id : Z;
  name : string;
  config : string;
  isDefault : Z;
  active : Z
}.
Record object : Type := {
  o_id : Z;
  o_user_id : Z;
  o_name : string;
  o_config : string;
  o_isDefault : bool;
  o_active : bool
}.
End Notification.

(** The body of the loop of lines 25-30. *)
Definition notificationObject (bean : Notification.bean) : Notification.object :=
  {| Notification.o_id := Notification.id bean;
     Notification.o_user_id := Notification.user_id bean;
     Notification.o_name := Notification.name bean;
     Notification.o_config := Notification.config bean;
     Notification.o_isDefault := (Notification.isDefault bean =? 1);
     Notification.o_active := (Notification.active bean =? 1) |}.

(** [sendNotificationList(socket)] (lines 17-37): the user the list is
    emitted to, the emitted list, and the returned beans. *)
Definition sendNotificationList (table : list Notification.bean)
    (socket : socket)
    : (destination * list Notification.object) * list Notification.bean :=
  let list :=
    filter (fun bean => Notification.user_id bean =? userID socket) table in
  let result := fold_left (fun result bean => push result (notificationObject bean)) list [] in
  ((ToUser (userID socket), result), list).

(** The heartbeats of a monitor, in table order. *)
Definition monitorBeats (db : Database) (monitorID : Z) : list heartbeat :=
  map snd (filter (fun row => fst row =? monitorID) (heartbeat_table db)).

(** A table of heartbeat beans for the examples. *)
Definition importantTable : list Bean.heartbeat :=
  [ {| Bean.monitor_id := 1; Bean.important := 1; Bean.time := 600000;
       Bean.status := 0 |};
    {| Bean.monitor_id := 1; Bean.important := 0; Bean.time := 900000;
       Bean.status := 0 |};
    {| Bean.monitor_id := 2; Bean.important := 1; Bean.time := 1000000;
       Bean.status := 0 |};
    {| Bean.monitor_id := 1; Bean.important := 1; Bean.time := 1500000;
       Bean.status := 1 |} ].

(** ** Measures used in the further properties *)

(** The heartbeats of a given status. *)
Definition countStatus (s : Z) (l : list heartbeat) : nat :=
  List.length (filter (fun b => status b =? s) l).

(** Whether the last heartbeat of status 0 or 1 has status 0. *)
Definition lastIsDown (l : list heartbeat) : bool :=
  fold_left
    (fun down b =>
       if status b =? 0 then true else if status b =? 1 then false else down)
    l false.

(** The binary64 operations of the standard library, to compare the doubles
    of [Js] with: the double of a whole number, the value of a double, and
    the running sum of lines 89-91 computed both ways. *)
Definition binary64 (z : Z) : spec_float := binary_normalize 53 1024 z 0 false.

Definition doubleValue (x : spec_float) : Q :=
  match x with
  | S754_finite s m e =>
      let v :=
        if 0 <=? e then inject_Z (Zpos m * 2 ^ e)
        else Zpos m # Z.to_pos (2 ^ (- e)) in
      if s then Qopp v else v
  | _ => 0%Q
  end.

Definition sumAgrees (ms : list Z) : bool :=
  Qeq_bool
    (fold_left
       (fun t d => Js.add t (Js.div (Js.sub (inject_Z d) (inject_Z 0)) 1000))
       ms 0%Q)
    (doubleValue
       (fold_left
          (fun t d =>
             SFadd 53 1024 t
               (SFdiv 53 1024 (SFsub 53 1024 (binary64 d) (binary64 0))
                  (binary64 1000)))
          ms (binary64 0))).

(** The summed length of intervals, in milliseconds. *)
Fixpoint sumMs (l : list Downtime.entry) : Z :=
  match l with
  | [] => 0
  | i :: r => (upAt i - downAt i) + sumMs r
  end.

(** Moving a heartbeat, an interval and the locals by [k] milliseconds. *)
Definition shiftBeat (k : Z) (b : heartbeat) : heartbeat :=
  {| time := time b + k; status := status b |}.

Definition shiftEntry (k : Z) (i : Downtime.entry) : Downtime.entry :=
  {| Downtime.monitor_id := Downtime.monitor_id i;
     Downtime.monitor_name := Downtime.monitor_name i;
     Downtime.monitor_url := Downtime.monitor_url i;
     Downtime.downTime := option_map (fun d => d + k) (Downtime.downTime i);
     Downtime.upTime := Downtime.upTime i + k;
     Downtime.duration := Downtime.duration i |}.

Definition shiftLocals (k : Z) (v : locals) : locals :=
  {| isDown := isDown v;
     downTime := option_map (fun d => d + k) (downTime v);
     totalDowntime := totalDowntime v |}.

(** The whole seconds a clock string of two-digit fields stands for. *)
Definition digitValue (c : ascii) : Z := Z.of_nat (nat_of_ascii c) - 48.

Definition clockSeconds (s : string) : option Z :=
  match s with
  | String h1 (String h2 (String _ (String m1 (String m2
      (String _ (String s1 (String s2 EmptyString))))))) =>
      Some (3600 * (10 * digitValue h1 + digitValue h2)
            + 60 * (10 * digitValue m1 + digitValue m2)
            + (10 * digitValue s1 + digitValue s2))
  | _ => None
  end.

(** ** The arrays only grow *)

Lemma forEachBody_frame monitor v pre stats beat :
  forEachBody monitor (v, pre ++ stats) beat =
  (fst (forEachBody monitor (v, stats) beat),
   pre ++ snd (forEachBody monitor (v, stats) beat)).
Proof.
  unfold forEachBody, push.
  destruct ((status beat =? 0) && negb (isDown v));
    cbn [isDown]; destruct (_ && (status beat =? 1)); cbn [fst snd];
    now rewrite ?app_assoc.
Qed.

Lemma fold_forEachBody_frame monitor heartbeats : forall v pre stats,
  fold_left (forEachBody monitor) heartbeats (v, pre ++ stats) =
  (fst (fold_left (forEachBody monitor) heartbeats (v, stats)),
   pre ++ snd (fold_left (forEachBody monitor) heartbeats (v, stats))).
Proof.
  induction heartbeats as [|b bs IH]; intros v pre stats; cbn [fold_left].
  - reflexivity.
  - rewrite forEachBody_frame.
    destruct (forEachBody monitor (v, stats) b) as [v1 s1]; cbn [fst snd].
    apply IH.
Qed.

Lemma loop_cons monitor b bs v :
  loop monitor (b :: bs) v =
  (fst (loop monitor bs (fst (forEachBody monitor (v, []) b))),
   snd (forEachBody monitor (v, []) b)
     ++ snd (loop monitor bs (fst (forEachBody monitor (v, []) b)))).
Proof.
  unfold loop; cbn [fold_left].
  destruct (forEachBody monitor (v, []) b) as [v1 s1] eqn:E; cbn [fst snd].
  rewrite <- (app_nil_r s1) at 1.
  apply fold_forEachBody_frame.
Qed.

Lemma loop_app monitor bs1 : forall bs2 v,
  loop monitor (bs1 ++ bs2) v =
  (fst (loop monitor bs2 (fst (loop monitor bs1 v))),
   snd (loop monitor bs1 v) ++ snd (loop monitor bs2 (fst (loop monitor bs1 v)))).
Proof.
  induction bs1 as [|b bs1 IH]; intros bs2 v.
  - change (loop monitor [] v) with (v, @nil Downtime.entry).
    cbn [app fst snd]. now destruct (loop monitor bs2 v).
  - cbn [app]. rewrite !loop_cons, IH. cbn [fst snd].
    now rewrite app_assoc.
Qed.

Lemma closeAtEnd_frame monitor endTime v pre stats :
  closeAtEnd monitor endTime (v, pre ++ stats) =
  (fst (closeAtEnd monitor endTime (v, stats)),
   pre ++ snd (closeAtEnd monitor endTime (v, stats))).
Proof.
  unfold closeAtEnd, push. destruct (isDown v); cbn [fst snd];
    now rewrite ?app_assoc.
Qed.

(** A callback appends its own intervals and its own total to whatever the
    arrays hold when it runs. *)
Lemma monitorTask_appends monitor heartbeats endTime a :
  monitorTask monitor heartbeats endTime a =
  {| downtimeStats := downtimeStats a ++ intervalsOf monitor heartbeats endTime;
     totalDowntimeStats :=
       totalDowntimeStats a ++ totalsOf monitor heartbeats endTime |}.
Proof.
  unfold intervalsOf, totalsOf, monitorTask, push.
  rewrite <- (app_nil_r (downtimeStats a)) at 1.
  rewrite fold_forEachBody_frame.
  cbn [downtimeStats totalDowntimeStats noArrays].
  destruct (fold_left (forEachBody monitor) heartbeats (initialLocals, []))
    as [v stats]; cbn [fst snd].
  rewrite closeAtEnd_frame.
  now destruct (closeAtEnd monitor endTime (v, stats)) as [v' s'].
Qed.

Lemma intervalsOf_eq monitor heartbeats endTime :
  intervalsOf monitor heartbeats endTime =
  snd (closeAtEnd monitor endTime (loop monitor heartbeats initialLocals)).
Proof.
  unfold intervalsOf, monitorTask, loop, noArrays; cbn [downtimeStats].
  now destruct (closeAtEnd _ _ _).
Qed.

Lemma totalsOf_eq monitor heartbeats endTime :
  totalsOf monitor heartbeats endTime =
  [ {| Total.monitor_id := id monitor;
       Total.monitor_name := name monitor;
       Total.monitor_url := url monitor;
       Total.downTime :=
         formatTime (totalDowntime (finalLocals monitor heartbeats endTime)) |} ].
Proof.
  unfold totalsOf, finalLocals, monitorTask, loop, noArrays;
    cbn [downtimeStats totalDowntimeStats].
  now destruct (closeAtEnd _ _ _).
Qed.

(** ** The three cases of the loop body *)

Lemma forEachBody_cases monitor v beat :
  (status beat = 0 /\ isDown v = false /\
   forEachBody monitor (v, []) beat = (opened v beat, []))
  \/ (status beat = 1 /\ isDown v = true /\
      forEachBody monitor (v, []) beat =
      (closed v beat, [closing monitor v (time beat)]))
  \/ ((status beat <> 0 \/ isDown v = true) /\
      (status beat <> 1 \/ isDown v = false) /\
      forEachBody monitor (v, []) beat = (v, [])).
Proof.
  unfold forEachBody, opened, closed, closing, push.
  destruct (Z.eqb_spec (status beat) 0) as [E0|E0];
    destruct (isDown v) eqn:Ed; cbn [andb negb isDown downTime totalDowntime];
    rewrite ?Ed; cbn [andb];
    destruct (Z.eqb_spec (status beat) 1) as [E1|E1]; cbn [app];
    try lia; auto 10.
Qed.

Lemma closeAtEnd_pair monitor endTime p :
  closeAtEnd monitor endTime p =
  (fst (closeAtEnd monitor endTime (fst p, [])),
   snd p ++ snd (closeAtEnd monitor endTime (fst p, []))).
Proof.
  destruct p as [v stats]; cbn [fst snd].
  rewrite <- (app_nil_r stats) at 1. apply closeAtEnd_frame.
Qed.

Lemma intervalsFrom_nil monitor endTime v :
  intervalsFrom monitor [] endTime v =
  if isDown v then [closing monitor v endTime] else [].
Proof.
  unfold intervalsFrom, loop, closeAtEnd, closing, push; cbn [fold_left].
  now destruct (isDown v).
Qed.

Lemma intervalsFrom_cons monitor b bs endTime v :
  intervalsFrom monitor (b :: bs) endTime v =
  snd (forEachBody monitor (v, []) b)
    ++ intervalsFrom monitor bs endTime (fst (forEachBody monitor (v, []) b)).
Proof.
  unfold intervalsFrom. rewrite loop_cons, closeAtEnd_pair; cbn [fst snd].
  rewrite (closeAtEnd_pair _ _ (loop _ _ _)).
  cbn [fst snd]. now rewrite app_assoc.
Qed.

Lemma intervalsOf_from monitor heartbeats endTime :
  intervalsOf monitor heartbeats endTime =
  intervalsFrom monitor heartbeats endTime initialLocals.
Proof. apply intervalsOf_eq. Qed.

(** ** The running total is the sum of the emitted lengths *)

Lemma sumSeconds_app acc l1 l2 :
  sumSeconds acc (l1 ++ l2) = sumSeconds (sumSeconds acc l1) l2.
Proof. apply fold_left_app. Qed.

Lemma seconds_closing monitor v upTime :
  seconds (closing monitor v upTime) =
  secondsBetween (Some upTime) (downTime v).
Proof. reflexivity. Qed.

Lemma loop_total monitor heartbeats : forall v,
  totalDowntime (fst (loop monitor heartbeats v)) =
  sumSeconds (totalDowntime v) (snd (loop monitor heartbeats v)).
Proof.
  induction heartbeats as [|b bs IH]; intro v.
  - reflexivity.
  - rewrite loop_cons; cbn [fst snd]. rewrite sumSeconds_app, IH.
    destruct (forEachBody_cases monitor v b)
      as [(_ & _ & E) | [(_ & _ & E) | (_ & _ & E)]];
      rewrite E;
      cbn [fst snd sumSeconds fold_left opened closed totalDowntime];
      rewrite ?seconds_closing; reflexivity.
Qed.

Lemma closeAtEnd_total monitor endTime v :
  totalDowntime (fst (closeAtEnd monitor endTime (v, []))) =
  sumSeconds (totalDowntime v) (snd (closeAtEnd monitor endTime (v, []))).
Proof.
  unfold closeAtEnd, push.
  destruct (isDown v);
    cbn [fst snd app sumSeconds fold_left totalDowntime]; [|reflexivity].
  unfold seconds; cbn [Downtime.upTime Downtime.downTime]. reflexivity.
Qed.

Lemma finalLocals_total monitor heartbeats endTime :
  totalDowntime (finalLocals monitor heartbeats endTime) =
  sumSeconds 0 (intervalsOf monitor heartbeats endTime).
Proof.
  rewrite intervalsOf_eq. unfold finalLocals.
  rewrite closeAtEnd_pair; cbn [fst snd].
  rewrite sumSeconds_app, closeAtEnd_total.
  now rewrite (loop_total monitor heartbeats initialLocals).
Qed.

(** ** Order and separation of the emitted intervals *)

Lemma chained_weaken l : forall lo lo', lo <= lo' -> chained lo' l -> chained lo l.
Proof. destruct l; cbn; intros; [trivial | intuition lia]. Qed.

Lemma ascending_inv b bs :
  ascending (b :: bs) ->
  ascending bs /\ Forall (fun x => time b <= time x) bs.
Proof. intro H. now apply StronglySorted_inv in H. Qed.

Lemma intervalsFrom_chained monitor endTime heartbeats : forall v lo,
  ascending heartbeats ->
  Forall (fun b => lo <= time b <= endTime) heartbeats ->
  lo <= endTime ->
  openBefore v lo ->
  chained (if isDown v then Js.Date (downTime v) else lo)
    (intervalsFrom monitor heartbeats endTime v).
Proof.
  induction heartbeats as [|b bs IH]; intros v lo Hasc Hwin Hle Hv.
  - rewrite intervalsFrom_nil. destruct (isDown v) eqn:Ed; cbn; [|trivial].
    destruct (Hv Ed) as (d & Hd & Hlo).
    unfold downAt, upAt; cbn. rewrite Hd; cbn. lia.
  - apply ascending_inv in Hasc. destruct Hasc as [Hasc Hhd].
    apply Forall_cons_iff in Hwin. destruct Hwin as [Hb Hwin].
    assert (Hwin' : Forall (fun x => time b <= time x <= endTime) bs).
    { rewrite Forall_forall in *. intros x Hx.
      specialize (Hhd x Hx). specialize (Hwin x Hx). lia. }
    rewrite intervalsFrom_cons.
    destruct (forEachBody_cases monitor v b)
      as [(_ & Ed & E) | [(_ & Ed & E) | (_ & _ & E)]];
      rewrite E; cbn [fst snd app].
    + rewrite Ed.
      apply chained_weaken with (lo' := time b); [lia|].
      apply (IH (opened v b) (time b)); auto; try lia.
      intros _. exists (time b). split; [reflexivity | lia].
    + rewrite Ed. destruct (Hv Ed) as (d & Hd & Hlo).
      cbn [chained]. unfold downAt at 1 2, upAt at 1; cbn.
      rewrite Hd; cbn. repeat split; try lia.
      apply (IH (closed v b) (time b)); auto; try lia.
      intros H; discriminate H.
    + destruct (isDown v) eqn:Ed.
      * specialize (IH v (time b) Hasc Hwin' (proj2 Hb)). rewrite Ed in IH.
        apply IH. intros _. destruct (Hv Ed) as (d & Hd & Hlo).
        exists d. split; [assumption | lia].
      * apply chained_weaken with (lo' := time b); [lia|].
        specialize (IH v (time b) Hasc Hwin' (proj2 Hb)). rewrite Ed in IH.
        apply IH. intros H. rewrite Ed in H. discriminate H.
Qed.

Lemma intervalsFrom_upAt monitor endTime heartbeats : forall v,
  Forall (fun b => time b <= endTime) heartbeats ->
  Forall (fun i => upAt i <= endTime)
    (intervalsFrom monitor heartbeats endTime v).
Proof.
  induction heartbeats as [|b bs IH]; intros v Hwin.
  - rewrite intervalsFrom_nil. destruct (isDown v); constructor; [|constructor].
    unfold upAt; cbn. lia.
  - apply Forall_cons_iff in Hwin. destruct Hwin as [Hb Hwin].
    rewrite intervalsFrom_cons. apply Forall_app. split; [|now apply IH].
    destruct (forEachBody_cases monitor v b)
      as [(_ & _ & E) | [(_ & _ & E) | (_ & _ & E)]];
      rewrite E; cbn [snd]; repeat constructor. exact Hb.
Qed.

Lemma chained_adjacent l : forall lo n a b,
  chained lo l ->
  nth_error l n = Some a -> nth_error l (S n) = Some b ->
  downAt a <= upAt a /\ upAt a <= downAt b.
Proof.
  induction l as [|i r IH]; intros lo n a b Hc Ha Hb.
  - destruct n; discriminate Ha.
  - destruct Hc as (_ & Hi & Hr). destruct n as [|n]; cbn in Ha, Hb.
    + injection Ha as <-. destruct r as [|j r']; [discriminate Hb|].
      cbn in Hb. injection Hb as <-. cbn in Hr. lia.
    + eapply IH; eauto.
Qed.

(** An outage open when the loop resumes yields the first interval, which
    starts where the outage started. *)
Lemma intervalsFrom_open monitor endTime heartbeats : forall v,
  isDown v = true ->
  exists i r,
    intervalsFrom monitor heartbeats endTime v = i :: r
    /\ Downtime.downTime i = downTime v
    /\ (upAt i = endTime \/ exists b, In b heartbeats /\ upAt i = time b).
Proof.
  induction heartbeats as [|b bs IH]; intros v Hd.
  - rewrite intervalsFrom_nil, Hd.
    exists (closing monitor v endTime), []. auto.
  - rewrite intervalsFrom_cons.
    destruct (forEachBody_cases monitor v b)
      as [(_ & Ed & E) | [(_ & Ed & E) | (_ & _ & E)]];
      rewrite E; cbn [fst snd app].
    + congruence.
    + eexists; eexists; split; [reflexivity|]. split; [reflexivity|].
      right. exists b. split; [now left | reflexivity].
    + destruct (IH v Hd) as (i & r & Hi & Hdown & Hup).
      exists i, r. repeat split; auto.
      destruct Hup as [Hup | (b' & Hin & Hup)]; [now left|].
      right. exists b'. split; [now right | assumption].
Qed.

(** Every heartbeat seen down falls in one of the emitted intervals. *)
Lemma intervalsFrom_cover monitor endTime heartbeats : forall v,
  ascending heartbeats ->
  Forall (fun b => time b <= endTime) heartbeats ->
  (isDown v = true ->
   exists d, downTime v = Some d /\ Forall (fun b => d <= time b) heartbeats) ->
  forall b, In b heartbeats -> status b = 0 ->
  exists i, In i (intervalsFrom monitor heartbeats endTime v)
            /\ downAt i <= time b <= upAt i.
Proof.
  induction heartbeats as [|b0 bs IH]; intros v Hasc Hwin Hv b Hin Hst.
  - destruct Hin.
  - apply ascending_inv in Hasc. destruct Hasc as [Hasc Hhd].
    apply Forall_cons_iff in Hwin. destruct Hwin as [Hb0 Hwin].
    rewrite intervalsFrom_cons.
    assert (Hfirst : forall v' d,
      isDown v' = true -> downTime v' = Some d -> d <= time b0 ->
      exists i, In i (intervalsFrom monitor bs endTime v')
                /\ downAt i <= time b0 <= upAt i).
    { intros v' d Hd' Hdt Hle.
      destruct (intervalsFrom_open monitor endTime bs v' Hd')
        as (i & r & Hi & Hdown & Hup).
      exists i. rewrite Hi. split; [now left|].
      unfold downAt. rewrite Hdown, Hdt; cbn.
      destruct Hup as [-> | (b' & Hin' & ->)]; [lia|].
      rewrite Forall_forall in Hhd. specialize (Hhd b' Hin'). lia. }
    destruct Hin as [<- | Hin].
    + destruct (forEachBody_cases monitor v b0)
        as [(_ & Ed & E) | [(E1 & _ & _) | ([E0 | Ed] & _ & E)]];
        try lia; rewrite E; cbn [fst snd app].
      * apply (Hfirst (opened v b0) (time b0)); auto; reflexivity || lia.
      * destruct (Hv Ed) as (d & Hdt & Hall).
        apply Forall_cons_iff in Hall. destruct Hall as [Hle _].
        now apply (Hfirst v d).
    + assert (Hgo : forall v',
        (isDown v' = true ->
         exists d, downTime v' = Some d /\ Forall (fun x => d <= time x) bs) ->
        exists i, In i (intervalsFrom monitor bs endTime v')
                  /\ downAt i <= time b <= upAt i).
      { intros v' Hv'. now apply (IH v'). }
      destruct (forEachBody_cases monitor v b0)
        as [(_ & _ & E) | [(_ & _ & E) | (_ & _ & E)]];
        rewrite E; cbn [fst snd].
      * destruct (Hgo (opened v b0)) as (i & Hi & Hb).
        { intros _. exists (time b0). split; [reflexivity | assumption]. }
        exists i. split; [assumption | exact Hb].
      * destruct (Hgo (closed v b0)) as (i & Hi & Hb).
        { intros H; discriminate H. }
        exists i. split; [apply in_or_app; now right | exact Hb].
      * destruct (Hgo v) as (i & Hi & Hb).
        { intros Hd. destruct (Hv Hd) as (d & Hdt & Hall).
          apply Forall_cons_iff in Hall. exists d. tauto. }
        exists i. split; [assumption | exact Hb].
Qed.

(** With no two heartbeats at one time, an interval closed by the loop has a
    positive length. *)
Lemma strictlyAscending_inv b bs :
  strictlyAscending (b :: bs) ->
  strictlyAscending bs /\ Forall (fun x => time b < time x) bs.
Proof. intro H. now apply StronglySorted_inv in H. Qed.

Lemma loop_positive monitor heartbeats : forall v,
  strictlyAscending heartbeats ->
  (isDown v = true ->
   exists d, downTime v = Some d /\ Forall (fun b => d < time b) heartbeats) ->
  Forall (fun i => downAt i < upAt i) (snd (loop monitor heartbeats v)).
Proof.
  induction heartbeats as [|b bs IH]; intros v Hasc Hv.
  - constructor.
  - apply strictlyAscending_inv in Hasc. destruct Hasc as [Hasc Hhd].
    rewrite loop_cons; cbn [snd]. apply Forall_app.
    destruct (forEachBody_cases monitor v b)
      as [(_ & _ & E) | [(_ & Ed & E) | (_ & _ & E)]];
      rewrite E; cbn [fst snd]; (split; [|apply IH; auto]).
    + constructor.
    + intros _. exists (time b). split; [reflexivity | assumption].
    + destruct (Hv Ed) as (d & Hdt & Hall).
      apply Forall_cons_iff in Hall. destruct Hall as [Hlt _].
      repeat constructor. unfold downAt, upAt; cbn. rewrite Hdt; cbn. lia.
    + intros H; discriminate H.
    + constructor.
    + intros Hd. destruct (Hv Hd) as (d & Hdt & Hall).
      apply Forall_cons_iff in Hall. exists d. tauto.
Qed.

Lemma intervalsFrom_split monitor heartbeats endTime v :
  intervalsFrom monitor heartbeats endTime v =
  snd (loop monitor heartbeats v)
    ++ (if isDown (fst (loop monitor heartbeats v))
        then [closing monitor (fst (loop monitor heartbeats v)) endTime]
        else []).
Proof.
  unfold intervalsFrom. rewrite closeAtEnd_pair; cbn [snd]. f_equal.
  change (snd (closeAtEnd monitor endTime (fst (loop monitor heartbeats v), [])))
    with (intervalsFrom monitor [] endTime (fst (loop monitor heartbeats v))).
  apply intervalsFrom_nil.
Qed.

(** ** What an interval is made of *)

Lemma intervalsFrom_shape monitor endTime heartbeats : forall v i,
  In i (intervalsFrom monitor heartbeats endTime v) ->
  (Downtime.monitor_id i = id monitor
   /\ Downtime.monitor_name i = name monitor
   /\ Downtime.monitor_url i = url monitor)
  /\ Downtime.duration i = formatTime (seconds i)
  /\ ((isDown v = true /\ Downtime.downTime i = downTime v)
      \/ exists b, In b heartbeats /\ status b = 0
                   /\ Downtime.downTime i = Some (time b))
  /\ (Downtime.upTime i = endTime
      \/ exists b, In b heartbeats /\ status b = 1
                   /\ Downtime.upTime i = time b).
Proof.
  induction heartbeats as [|b bs IH]; intros v i Hi.
  - rewrite intervalsFrom_nil in Hi. destruct (isDown v) eqn:Ed; [|destruct Hi].
    destruct Hi as [<- | []]. cbn. auto 10.
  - rewrite intervalsFrom_cons in Hi.
    assert (Hlift : forall v',
      In i (intervalsFrom monitor bs endTime v') ->
      (isDown v' = true -> downTime v' = downTime v /\ isDown v = true
                           \/ (status b = 0 /\ downTime v' = Some (time b))) ->
      (Downtime.monitor_id i = id monitor
       /\ Downtime.monitor_name i = name monitor
       /\ Downtime.monitor_url i = url monitor)
      /\ Downtime.duration i = formatTime (seconds i)
      /\ ((isDown v = true /\ Downtime.downTime i = downTime v)
          \/ exists b0, In b0 (b :: bs) /\ status b0 = 0
                        /\ Downtime.downTime i = Some (time b0))
      /\ (Downtime.upTime i = endTime
          \/ exists b0, In b0 (b :: bs) /\ status b0 = 1
                        /\ Downtime.upTime i = time b0)).
    { intros v' Hin Hv'.
      destruct (IH v' i Hin) as (Hid & Hdur & Hdown & Hup).
      split; [exact Hid|]. split; [exact Hdur|]. split.
      - destruct Hdown as [[Hd' Hdt] | (b0 & Hb0 & Hs0 & Hdt)].
        + destruct (Hv' Hd') as [[E Ed] | [Hs E]].
          * left. split; [exact Ed | congruence].
          * right. exists b. split; [now left|]. split; [exact Hs | congruence].
        + right. exists b0. split; [now right | auto].
      - destruct Hup as [Hup | (b0 & Hb0 & Hs0 & Hup)]; [now left|].
        right. exists b0. split; [now right | auto]. }
    destruct (forEachBody_cases monitor v b)
      as [(Hs & Ed & E) | [(Hs & Ed & E) | (_ & _ & E)]];
      rewrite E in Hi; cbn [fst snd app] in Hi.
    + apply (Hlift _ Hi). intros _. right. split; [exact Hs | reflexivity].
    + destruct Hi as [<- | Hi].
      * cbn. split; [auto|]. split; [reflexivity|]. split; [now left|].
        right. exists b. split; [now left | auto].
      * apply (Hlift _ Hi). intros H; discriminate H.
    + apply (Hlift _ Hi). intros Hd. left. auto.
Qed.

(** ** The heartbeat query *)

Lemma insertByTime_In b l x :
  In x (insertByTime b l) <-> x = b \/ In x l.
Proof.
  induction l as [|y r IH]; cbn.
  - intuition congruence.
  - destruct (time b <=? time y); cbn; rewrite ?IH; intuition congruence.
Qed.

Lemma insertByTime_ascending b l :
  ascending l -> ascending (insertByTime b l).
Proof.
  unfold ascending. induction l as [|y r IH]; intro Hs; cbn.
  - repeat constructor.
  - apply StronglySorted_inv in Hs. destruct Hs as [Hr Hy].
    destruct (Z.leb_spec (time b) (time y)) as [Hle|Hlt].
    + constructor; [now constructor|].
      constructor; [assumption|].
      eapply Forall_impl; [|exact Hy]. cbn; intros; lia.
    + constructor; [now apply IH|].
      apply Forall_forall. intros x Hx. apply insertByTime_In in Hx.
      destruct Hx as [-> | Hx]; [lia|].
      rewrite Forall_forall in Hy. now apply Hy.
Qed.

Lemma orderByTime_In l x : In x (orderByTime l) <-> In x l.
Proof.
  induction l as [|b r IH]; cbn; [tauto|].
  rewrite insertByTime_In, IH. intuition congruence.
Qed.

Lemma orderByTime_ascending l : ascending (orderByTime l).
Proof.
  induction l as [|b r IH]; cbn.
  - constructor.
  - now apply insertByTime_ascending.
Qed.

Lemma heartbeat_query_order db i s e : ascending (heartbeat_query db i s e).
Proof. apply orderByTime_ascending. Qed.

(** A returned row is a row of the monitor that the store accepts for both
    bounds. *)
Lemma heartbeat_query_accepts db i s e b :
  In b (heartbeat_query db i s e) ->
  In (i, b) (heartbeat_table db)
  /\ time_ge_datetime db b s = true
  /\ time_le_datetime db b e = true.
Proof.
  unfold heartbeat_query. rewrite orderByTime_In, in_map_iff.
  intros ([k b'] & Hb & Hin). cbn [snd] in Hb. subst b'.
  apply filter_In in Hin. cbn [fst snd] in Hin.
  destruct Hin as [Hin Ht]. rewrite !andb_true_iff in Ht.
  destruct Ht as [[Hk Hs] He]. apply Z.eqb_eq in Hk. subst k. auto.
Qed.

(** ** The arrays after all callbacks *)

Lemma fold_monitorTask db s e completion : forall a,
  fold_left
    (fun a m => monitorTask m (heartbeat_query db (id m) s e) e a)
    completion a =
  {| downtimeStats :=
       downtimeStats a
         ++ flat_map (fun m => intervalsOf m (beatsOf db s e m) e) completion;
     totalDowntimeStats :=
       totalDowntimeStats a
         ++ flat_map (fun m => totalsOf m (beatsOf db s e m) e) completion |}.
Proof.
  induction completion as [|m ms IH]; intro a; cbn [fold_left flat_map].
  - rewrite !app_nil_r. now destruct a.
  - rewrite IH, monitorTask_appends; cbn [downtimeStats totalDowntimeStats].
    unfold beatsOf. now rewrite !app_assoc.
Qed.

Lemma runCallbacks_eq db completion s e :
  runCallbacks db completion s e =
  {| downtimeStats :=
       flat_map (fun m => intervalsOf m (beatsOf db s e m) e) completion;
     totalDowntimeStats :=
       flat_map (fun m => totalsOf m (beatsOf db s e m) e) completion |}.
Proof. unfold runCallbacks. now rewrite fold_monitorTask. Qed.

Lemma emitted_sendDowntimeStats db completion s e :
  emitted (sendDowntimeStats db completion s e) =
  Some (runCallbacks db completion s e).
Proof.
  unfold sendDowntimeStats; cbn [emitted].
  induction (monitor_table db) as [|m ms IH]; cbn; auto.
Qed.

(** Every entry a callback pushes carries the id of its monitor. *)
Lemma intervalsFrom_id monitor endTime heartbeats : forall v i,
  In i (intervalsFrom monitor heartbeats endTime v) ->
  Downtime.monitor_id i = id monitor.
Proof.
  induction heartbeats as [|b bs IH]; intros v i.
  - rewrite intervalsFrom_nil. destruct (isDown v); cbn; [|tauto].
    now intros [<- | []].
  - rewrite intervalsFrom_cons, in_app_iff. intros [Hi | Hi]; [|eauto].
    destruct (forEachBody_cases monitor v b)
      as [(_ & _ & E) | [(_ & _ & E) | (_ & _ & E)]];
      rewrite E in Hi; cbn in Hi; try tauto.
    now destruct Hi as [<- | []].
Qed.

Lemma filter_none {A : Type} (f : A -> bool) l :
  (forall x, In x l -> f x = false) -> filter f l = [].
Proof.
  induction l as [|x r IH]; cbn; intro H; [reflexivity|].
  rewrite (H x (or_introl eq_refl)). apply IH. auto.
Qed.

Lemma filter_all {A : Type} (f : A -> bool) l :
  (forall x, In x l -> f x = true) -> filter f l = l.
Proof.
  induction l as [|x r IH]; cbn; intro H; [reflexivity|].
  rewrite (H x (or_introl eq_refl)). f_equal. apply IH. auto.
Qed.

(** Selecting by monitor id in the concatenation of the callbacks' outputs
    gives back the output of that monitor's callback. *)
Lemma filter_flat_map_key {A : Type} (key : A -> Z) (f : monitor -> list A)
    (Hkey : forall m x, In x (f m) -> key x = id m) l : forall m,
  NoDup (map id l) -> In m l ->
  filter (fun x => key x =? id m) (flat_map f l) = f m.
Proof.
  induction l as [|a r IH]; intros m Hnd Hin; [destruct Hin|].
  cbn in Hnd. apply NoDup_cons_iff in Hnd. destruct Hnd as [Ha Hnd].
  cbn [flat_map]. rewrite filter_app.
  destruct Hin as [-> | Hin].
  - rewrite filter_all, filter_none; [apply app_nil_r | |].
    + intros x Hx. apply in_flat_map in Hx. destruct Hx as (m' & Hm' & Hx).
      apply Z.eqb_neq. rewrite (Hkey _ _ Hx). intro E. apply Ha.
      rewrite <- E. now apply in_map.
    + intros x Hx. apply Z.eqb_eq. eauto.
  - rewrite filter_none, IH; auto.
    intros x Hx. apply Z.eqb_neq. rewrite (Hkey _ _ Hx). intro E. apply Ha.
    rewrite E. now apply in_map.
Qed.

(** ** One callback: what it emits *)

Lemma loop_downTime monitor heartbeats : forall v,
  (isDown v = true -> exists d, downTime v = Some d) ->
  isDown (fst (loop monitor heartbeats v)) = true ->
  exists d, downTime (fst (loop monitor heartbeats v)) = Some d.
Proof.
  induction heartbeats as [|b bs IH]; intros v Hv.
  - exact Hv.
  - rewrite loop_cons; cbn [fst]. apply IH.
    destruct (forEachBody_cases monitor v b)
      as [(_ & _ & E) | [(_ & _ & E) | (_ & _ & E)]];
      rewrite E; cbn [fst]; auto.
    + intros _. now exists (time b).
    + intros H; discriminate H.
Qed.

Lemma loop_last_down monitor pre b v :
  status b = 0 -> isDown (fst (loop monitor (pre ++ [b]) v)) = true.
Proof.
  intro Hb. rewrite loop_app; cbn [fst].
  set (v' := fst (loop monitor pre v)).
  rewrite loop_cons; cbn [fst].
  destruct (forEachBody_cases monitor v' b)
    as [(_ & _ & E) | [(E1 & _ & _) | ([E0 | Ed] & _ & E)]];
    try lia; rewrite E; cbn; auto.
Qed.

Lemma intervalsOf_partition monitor heartbeats startTime endTime :
  ascending heartbeats ->
  Forall (fun b => startTime <= time b <= endTime) heartbeats ->
  chained startTime (intervalsOf monitor heartbeats endTime)
  /\ Forall (fun i => upAt i <= endTime) (intervalsOf monitor heartbeats endTime)
  /\ (forall b, In b heartbeats -> status b = 0 ->
      exists i, In i (intervalsOf monitor heartbeats endTime)
                /\ downAt i <= time b <= upAt i).
Proof.
  intros Hasc Hwin. rewrite intervalsOf_from. repeat split.
  - destruct heartbeats as [|b bs].
    + rewrite intervalsFrom_nil. exact I.
    + apply (intervalsFrom_chained monitor endTime (b :: bs) initialLocals);
        auto.
      * apply Forall_cons_iff in Hwin. lia.
      * intros H; discriminate H.
  - apply intervalsFrom_upAt. eapply Forall_impl; [|exact Hwin].
    cbn; intros; lia.
  - apply intervalsFrom_cover; auto.
    + eapply Forall_impl; [|exact Hwin]. cbn; intros; lia.
    + intros H; discriminate H.
Qed.

(** ** C4 *)

(** C4.  When the last heartbeat of the window is down, and more generally
    when the loop ends with [isDown] true, the callback pushes, after the
    intervals of the loop, exactly one more interval: it starts at the
    [downTime] the loop ended with, ends at [endTime], and its length in
    seconds, the double [(endTime - downTime) / 1000], is added to
    [totalDowntime] before the total is formatted. *)
Theorem C4_open_outage_closed_at_endTime
    (m : monitor) (heartbeats : list heartbeat) (endTime : Z) :
  (exists pre b, heartbeats = pre ++ [b] /\ status b = 0)
  \/ isDown (fst (loop m heartbeats initialLocals)) = true ->
  let v := fst (loop m heartbeats initialLocals) in
  isDown v = true
  /\ exists d,
       downTime v = Some d
       /\ intervalsOf m heartbeats endTime =
            snd (loop m heartbeats initialLocals)
              ++ [ {| Downtime.monitor_id := id m;
                      Downtime.monitor_name := name m;
                      Downtime.monitor_url := url m;
                      Downtime.downTime := Some d;
                      Downtime.upTime := endTime;
                      Downtime.duration :=
                        formatTime
                          (Js.div (Js.sub (inject_Z endTime) (inject_Z d))
                             1000) |} ]
       /\ totalDowntime (finalLocals m heartbeats endTime) =
            Js.add (totalDowntime v)
              (Js.div (Js.sub (inject_Z endTime) (inject_Z d)) 1000).
Proof.
  intros H v.
  assert (Hd : isDown v = true).
  { destruct H as [(pre & b & -> & Hb) | H]; [|exact H].
    now apply loop_last_down. }
  split; [exact Hd|].
  destruct (loop_downTime m heartbeats initialLocals) as (d & Hdt); auto.
  { intros E; discriminate E. }
  fold v in Hdt. exists d. split; [exact Hdt|]. split.
  - rewrite intervalsOf_from, intervalsFrom_split. fold v. rewrite Hd.
    unfold closing, secondsBetween. now rewrite Hdt.
  - unfold finalLocals. rewrite closeAtEnd_pair; cbn [fst].
    fold v. unfold closeAtEnd. rewrite Hd; cbn [fst totalDowntime].
    unfold secondsBetween. now rewrite Hdt.
Qed.

Lemma C4_open_outage_closed_at_endTime_witness :
  ((exists pre b, [beat 3000000 0] = pre ++ [b] /\ status b = 0)
   \/ isDown (fst (loop monitorA [beat 3000000 0] initialLocals)) = true)
  /\ let v := fst (loop monitorA [beat 3000000 0] initialLocals) in
     isDown v = true
     /\ exists d,
          downTime v = Some d
          /\ intervalsOf monitorA [beat 3000000 0] 3600000 =
               snd (loop monitorA [beat 3000000 0] initialLocals)
                 ++ [ {| Downtime.monitor_id := 1;
                         Downtime.monitor_name := "A";
                         Downtime.monitor_url := "http://a";
                         Downtime.downTime := Some d;
                         Downtime.upTime := 3600000;
                         Downtime.duration :=
                           formatTime
                             (Js.div (Js.sub (inject_Z 3600000) (inject_Z d))
                                1000) |} ]
          /\ totalDowntime (finalLocals monitorA [beat 3000000 0] 3600000) =
               Js.add (totalDowntime v)
                 (Js.div (Js.sub (inject_Z 3600000) (inject_Z d)) 1000).
Proof.
  assert (H : (exists pre b, [beat 3000000 0] = pre ++ [b] /\ status b = 0)
              \/ isDown (fst (loop monitorA [beat 3000000 0] initialLocals))
                 = true)
    by (right; reflexivity).
  split; [exact H|].
  exact (C4_open_outage_closed_at_endTime monitorA [beat 3000000 0] 3600000 H).
Defined.

(** The second scenario of the specification: one heartbeat, down at
    00:50:00, in a window of one hour. *)
Example open_outage_scenario :
  monitorTask monitorA [beat 3000000 0] 3600000 noArrays =
  {| downtimeStats :=
       [ {| Downtime.monitor_id := 1;
            Downtime.monitor_name := "A";
            Downtime.monitor_url := "http://a";
            Downtime.downTime := Some 3000000;
            Downtime.upTime := 3600000;
            Downtime.duration := "00:10:00" |} ];
     totalDowntimeStats :=
       [ {| Total.monitor_id := 1;
            Total.monitor_name := "A";
            Total.monitor_url := "http://a";
            Total.downTime := "00:10:00" |} ] |}.
Proof. reflexivity. Qed.

(** ** C10 and C6: heartbeats that change nothing *)

Lemma forEachBody_other monitor v stats b :
  status b <> 0 -> status b <> 1 ->
  forEachBody monitor (v, stats) b = (v, stats).
Proof.
  intros H0 H1. unfold forEachBody.
  apply Z.eqb_neq in H0, H1. rewrite H0, H1; cbn [andb].
  now rewrite andb_false_r.
Qed.

Lemma forEachBody_pair monitor st b :
  forEachBody monitor st b =
  (fst (forEachBody monitor (fst st, []) b),
   snd st ++ snd (forEachBody monitor (fst st, []) b)).
Proof.
  destruct st as [v stats]; cbn [fst snd].
  rewrite <- (app_nil_r stats) at 1. apply forEachBody_frame.
Qed.

(** After a heartbeat, a heartbeat of the same status changes nothing. *)
Lemma forEachBody_repeat monitor st b b' :
  status b' = status b ->
  forEachBody monitor (forEachBody monitor st b) b' = forEachBody monitor st b.
Proof.
  intro Hs. rewrite (forEachBody_pair monitor st b).
  set (v := fst st). set (stats := snd st).
  rewrite forEachBody_pair; cbn [fst snd].
  destruct (forEachBody_cases monitor v b)
    as [(Hb & Ed & E) | [(Hb & Ed & E) | (H0 & H1 & E)]];
    rewrite E; cbn [fst snd].
  - destruct (forEachBody_cases monitor (opened v b) b')
      as [(_ & Ed' & _) | [(Hb' & _ & _) | (_ & _ & E')]];
      [discriminate Ed' | lia | now rewrite E', app_nil_r].
  - destruct (forEachBody_cases monitor (closed v b) b')
      as [(Hb' & _ & _) | [(_ & Ed' & _) | (_ & _ & E')]];
      [lia | discriminate Ed' | now rewrite E', app_nil_r].
  - destruct (forEachBody_cases monitor v b')
      as [(Hb' & Ed' & _) | [(Hb' & Ed' & _) | (_ & _ & E')]];
      [ | | now rewrite E', app_nil_r].
    + destruct H0 as [H0 | H0]; [lia | congruence].
    + destruct H1 as [H1 | H1]; [lia | congruence].
Qed.

(** A heartbeat the body ignores in the state where it is met can be dropped
    from the sequence. *)
Lemma monitorTask_drop monitor pre b post endTime a :
  (forall st,
     forEachBody monitor (fold_left (forEachBody monitor) pre st) b =
     fold_left (forEachBody monitor) pre st) ->
  monitorTask monitor (pre ++ b :: post) endTime a =
  monitorTask monitor (pre ++ post) endTime a.
Proof.
  intro H. unfold monitorTask.
  rewrite !fold_left_app; cbn [fold_left]. now rewrite H.
Qed.

(** C10.  A heartbeat whose status is neither 0 nor 1 leaves [isDown],
    [downTime], [totalDowntime] and the array of intervals as they are,
    whatever the state; it opens and closes nothing; and dropping it from
    the sequence changes nothing of what the callback pushes. *)
Theorem C10_other_status_ignored
    (m : monitor) (v : locals) (stats : list Downtime.entry) (b : heartbeat)
    (pre post : list heartbeat) (endTime : Z) (a : arrays) :
  status b <> 0 -> status b <> 1 ->
  forEachBody m (v, stats) b = (v, stats)
  /\ monitorTask m (pre ++ b :: post) endTime a =
     monitorTask m (pre ++ post) endTime a.
Proof.
  intros H0 H1. split.
  - now apply forEachBody_other.
  - apply monitorTask_drop. intros [v' s']. 
    destruct (fold_left _ pre _) as [v2 s2]. now apply forEachBody_other.
Qed.

Lemma C10_other_status_ignored_witness :
  status (beat 700000 2) <> 0 /\ status (beat 700000 2) <> 1
  /\ forEachBody monitorA (opened initialLocals (beat 600000 0), [])
       (beat 700000 2)
     = (opened initialLocals (beat 600000 0), [])
  /\ monitorTask monitorA
       ([beat 600000 0] ++ beat 700000 2 :: [beat 1500000 1]) 3600000 noArrays
     = monitorTask monitorA ([beat 600000 0] ++ [beat 1500000 1]) 3600000
         noArrays.
Proof.
  assert (H0 : status (beat 700000 2) <> 0) by (cbn; lia).
  assert (H1 : status (beat 700000 2) <> 1) by (cbn; lia).
  split; [exact H0|]. split; [exact H1|].
  exact (C10_other_status_ignored monitorA
           (opened initialLocals (beat 600000 0)) [] (beat 700000 2)
           [beat 600000 0] [beat 1500000 1] 3600000 noArrays H0 H1).
Defined.

(** C6.  A heartbeat that follows a heartbeat of the same status, whatever
    its own time, causes no transition and no emission; inserting it leaves
    both arrays, hence the intervals and the total, as they were. *)
Theorem C6_repeated_status_ignored
    (m : monitor) (pre post : list heartbeat) (b b' : heartbeat)
    (endTime : Z) (a : arrays) :
  status b' = status b ->
  (forall st, forEachBody m (forEachBody m st b) b' = forEachBody m st b)
  /\ monitorTask m (pre ++ b :: b' :: post) endTime a =
     monitorTask m (pre ++ b :: post) endTime a.
Proof.
  intro Hs. split.
  - intro st. now apply forEachBody_repeat.
  - replace (pre ++ b :: b' :: post) with ((pre ++ [b]) ++ b' :: post)
      by now rewrite <- app_assoc.
    replace (pre ++ b :: post) with ((pre ++ [b]) ++ post)
      by now rewrite <- app_assoc.
    apply monitorTask_drop. intro st.
    rewrite fold_left_app; cbn [fold_left]. now apply forEachBody_repeat.
Qed.

Lemma C6_repeated_status_ignored_witness :
  status (beat 300000 0) = status (beat 300000 0)
  /\ (forall st,
        forEachBody monitorA (forEachBody monitorA st (beat 300000 0))
          (beat 300000 0)
        = forEachBody monitorA st (beat 300000 0))
  /\ monitorTask monitorA
       ([] ++ beat 300000 0 :: beat 300000 0 :: [beat 1200000 1]) 3600000
       noArrays
     = monitorTask monitorA ([] ++ beat 300000 0 :: [beat 1200000 1]) 3600000
         noArrays.
Proof.
  split; [reflexivity|].
  exact (C6_repeated_status_ignored monitorA [] [beat 1200000 1]
           (beat 300000 0) (beat 300000 0) 3600000 noArrays eq_refl).
Defined.

(** The first scenario of the specification: down at 00:10:00, up at
    00:25:00. *)
Example closed_outage_scenario :
  monitorTask monitorA [beat 600000 0; beat 1500000 1] 3600000 noArrays =
  {| downtimeStats :=
       [ {| Downtime.monitor_id := 1;
            Downtime.monitor_name := "A";
            Downtime.monitor_url := "http://a";
            Downtime.downTime := Some 600000;
            Downtime.upTime := 1500000;
            Downtime.duration := "00:15:00" |} ];
     totalDowntimeStats :=
       [ {| Total.monitor_id := 1;
            Total.monitor_name := "A";
            Total.monitor_url := "http://a";
            Total.downTime := "00:15:00" |} ] |}.
Proof. reflexivity. Qed.

(** The third scenario of the specification: a repeated down. *)
Example repeated_down_scenario :
  monitorTask monitorA [beat 300000 0; beat 300000 0; beat 1200000 1] 3600000
    noArrays =
  {| downtimeStats :=
       [ {| Downtime.monitor_id := 1;
            Downtime.monitor_name := "A";
            Downtime.monitor_url := "http://a";
            Downtime.downTime := Some 300000;
            Downtime.upTime := 1200000;
            Downtime.duration := "00:15:00" |} ];
     totalDowntimeStats :=
       [ {| Total.monitor_id := 1;
            Total.monitor_name := "A";
            Total.monitor_url := "http://a";
            Total.downTime := "00:15:00" |} ] |}.
Proof. reflexivity. Qed.

(** ** C7 *)

(** C7.  When the first heartbeat of the window is down, the callback emits
    at least one interval and the first one starts at the time of that
    heartbeat; [startTime] plays no part in it. *)
Theorem C7_first_down_starts_interval
    (m : monitor) (b : heartbeat) (rest : list heartbeat) (endTime : Z) :
  status b = 0 ->
  exists i r,
    intervalsOf m (b :: rest) endTime = i :: r
    /\ Downtime.downTime i = Some (time b)
    /\ downAt i = time b.
Proof.
  intro Hb. rewrite intervalsOf_from, intervalsFrom_cons.
  destruct (forEachBody_cases m initialLocals b)
    as [(_ & _ & E) | [(_ & Ed & _) | ([H0 | Ed] & _ & _)]];
    [ | discriminate Ed | lia | discriminate Ed].
  rewrite E; cbn [fst snd app].
  destruct (intervalsFrom_open m endTime rest (opened initialLocals b) eq_refl)
    as (i & r & Hi & Hdown & _).
  exists i, r. split; [exact Hi|]. split; [exact Hdown|].
  unfold downAt. now rewrite Hdown.
Qed.

Lemma C7_first_down_starts_interval_witness :
  status (beat 600000 0) = 0
  /\ exists i r,
       intervalsOf monitorA (beat 600000 0 :: [beat 1500000 1]) 3600000
         = i :: r
       /\ Downtime.downTime i = Some (time (beat 600000 0))
       /\ downAt i = time (beat 600000 0).
Proof.
  split; [reflexivity|].
  exact (C7_first_down_starts_interval monitorA (beat 600000 0)
           [beat 1500000 1] 3600000 eq_refl).
Defined.

(** Monitor 1 of [demoDb] is down from 00:10:00.  A window that starts at
    00:13:20 first sees it, down, at 00:15:00: the first interval starts at
    00:15:00, not at the start of the window. *)
Example first_interval_not_clamped :
  map status (heartbeat_query demoDb 1 800000 3600000) = [0; 1; 0]
  /\ map downAt
       (intervalsOf monitorA (heartbeat_query demoDb 1 800000 3600000) 3600000)
     = [900000; 3000000]
  /\ map downAt
       (intervalsOf monitorA (heartbeat_query demoDb 1 0 3600000) 3600000)
     = [600000; 3000000].
Proof. repeat split; reflexivity. Qed.

(** ** C8 *)

Lemma loop_no_down monitor heartbeats : forall v,
  Forall (fun b => status b <> 0) heartbeats ->
  isDown v = false ->
  loop monitor heartbeats v = (v, []).
Proof.
  induction heartbeats as [|b bs IH]; intros v Hall Hv; [reflexivity|].
  apply Forall_cons_iff in Hall. destruct Hall as [Hb Hall].
  rewrite loop_cons.
  destruct (forEachBody_cases monitor v b)
    as [(H0 & _ & _) | [(_ & Ed & _) | (_ & _ & E)]];
    [lia | congruence |].
  rewrite E; cbn [fst snd]. now rewrite IH.
Qed.

(** C8.  A callback whose heartbeats are none, or all up (more generally none
    of them down), pushes no interval and pushes exactly one total, whose
    value is 00:00:00. *)
Theorem C8_no_downtime_zero_total
    (m : monitor) (heartbeats : list heartbeat) (endTime : Z) (a : arrays) :
  Forall (fun b => status b <> 0) heartbeats ->
  monitorTask m heartbeats endTime a =
  {| downtimeStats := downtimeStats a;
     totalDowntimeStats :=
       totalDowntimeStats a
         ++ [ {| Total.monitor_id := id m;
                 Total.monitor_name := name m;
                 Total.monitor_url := url m;
                 Total.downTime := "00:00:00" |} ] |}.
Proof.
  intro Hall. rewrite monitorTask_appends, intervalsOf_eq, totalsOf_eq.
  unfold finalLocals. rewrite (loop_no_down m heartbeats initialLocals Hall eq_refl).
  cbn. now rewrite app_nil_r.
Qed.

Lemma C8_no_downtime_zero_total_witness :
  Forall (fun b => status b <> 0) [beat 100000 1; beat 900000 1]
  /\ Forall (fun b => status b <> 0) []
  /\ monitorTask monitorB [beat 100000 1; beat 900000 1] 3600000 noArrays =
     {| downtimeStats := [];
        totalDowntimeStats :=
          [] ++ [ {| Total.monitor_id := 2;
                     Total.monitor_name := "B";
                     Total.monitor_url := "http://b";
                     Total.downTime := "00:00:00" |} ] |}
  /\ monitorTask monitorB [] 3600000 noArrays =
     {| downtimeStats := [];
        totalDowntimeStats :=
          [] ++ [ {| Total.monitor_id := 2;
                     Total.monitor_name := "B";
                     Total.monitor_url := "http://b";
                     Total.downTime := "00:00:00" |} ] |}.
Proof.
  assert (H : Forall (fun b => status b <> 0) [beat 100000 1; beat 900000 1])
    by (repeat constructor; cbn; lia).
  assert (H' : Forall (fun b : heartbeat => status b <> 0) [])
    by constructor.
  split; [exact H|]. split; [exact H'|]. split.
  - exact (C8_no_downtime_zero_total monitorB [beat 100000 1; beat 900000 1]
             3600000 noArrays H).
  - exact (C8_no_downtime_zero_total monitorB [] 3600000 noArrays H').
Defined.

(** ** C2: a reversed window *)

Lemma flat_map_singleton {A B : Type} (f : A -> list B) (g : A -> B) l :
  (forall x, f x = [g x]) -> flat_map f l = map g l.
Proof.
  intro H. induction l as [|x r IH]; cbn; [reflexivity|].
  now rewrite H, IH.
Qed.

Lemma flat_map_empty {A B : Type} (f : A -> list B) l :
  (forall x, f x = []) -> flat_map f l = [].
Proof.
  intro H. induction l as [|x r IH]; cbn; [reflexivity|].
  now rewrite H, IH.
Qed.

(** With [startTime = 10 > endTime = 5] the pass over [demoDb] is not
    rejected: it queries and emits. *)
Lemma C2_counterexample :
  5 < 10
  /\ ~ rejectedBeforeFetch (sendDowntimeStats demoDb [monitorA; monitorB] 10 5).
Proof.
  split; [lia|]. intros [Hq _]. vm_compute in Hq. discriminate Hq.
Qed.

Example reversed_window_trace :
  sendDowntimeStats demoDb [monitorA; monitorB] 10 5 =
  [ GetAllMonitors; GetAllHeartbeats 1 10 5; GetAllHeartbeats 2 10 5;
    Emit {| downtimeStats := [];
            totalDowntimeStats := [zeroTotal monitorA; zeroTotal monitorB] |} ].
Proof. reflexivity. Qed.

Lemma heartbeat_query_none db i s e :
  (forall b, time_ge_datetime db b s = true ->
             time_le_datetime db b e = true -> False) ->
  heartbeat_query db i s e = [].
Proof.
  intro H. destruct (heartbeat_query db i s e) as [|b r] eqn:E; [reflexivity|].
  destruct (heartbeat_query_accepts db i s e b) as (_ & Hs & He).
  - rewrite E. now left.
  - destruct (H b Hs He).
Qed.

(** A column written to the millisecond accepts no row for a reversed
    window. *)
Lemma millisText_reversed b startTime endTime :
  endTime < startTime ->
  millisText_ge b startTime = true -> millisText_le b endTime = true -> False.
Proof.
  unfold millisText_ge, millisText_le. rewrite Z.leb_le, Z.ltb_lt.
  intros Hlt Hge Hle.
  pose proof (Z.div_le_mono endTime startTime 1000 ltac:(lia) ltac:(lia)).
  lia.
Qed.

(** C2, amended.  A pass with [startTime > endTime] is not rejected: it
    issues the monitor query and one heartbeat query per monitor, with the
    two bounds as given, neither swapped nor clamped, and it emits, with one
    total for every monitor.  An interval it emits starts at a heartbeat
    that the store accepts for both bounds; when the store accepts no row
    for both, as SQLite does for a column written to the millisecond, the
    intervals are none and every total is 00:00:00. *)
Theorem C2_reversed_window_not_rejected
    (db : Database) (completion : list monitor) (startTime endTime : Z) :
  endTime < startTime ->
  exists out,
    sendDowntimeStats db completion startTime endTime =
      GetAllMonitors
        :: map (fun m => GetAllHeartbeats (id m) startTime endTime)
             (monitor_table db)
        ++ [Emit out]
    /\ map (fun t => (Total.monitor_id t, Total.monitor_name t,
                      Total.monitor_url t))
         (totalDowntimeStats out)
       = map (fun m => (id m, name m, url m)) completion
    /\ (forall i, In i (downtimeStats out) ->
        exists m b,
          In m completion
          /\ Downtime.monitor_id i = id m
          /\ In (id m, b) (heartbeat_table db)
          /\ status b = 0
          /\ Downtime.downTime i = Some (time b)
          /\ time_ge_datetime db b startTime = true
          /\ time_le_datetime db b endTime = true)
    /\ ((forall b, time_ge_datetime db b startTime = true ->
                   time_le_datetime db b endTime = true -> False) ->
        out = {| downtimeStats := [];
                 totalDowntimeStats := map zeroTotal completion |})
    /\ (time_ge_datetime db = millisText_ge ->
        time_le_datetime db = millisText_le ->
        out = {| downtimeStats := [];
                 totalDowntimeStats := map zeroTotal completion |}).
Proof.
  intros Hlt. exists (runCallbacks db completion startTime endTime).
  split; [reflexivity|].
  rewrite runCallbacks_eq; cbn [downtimeStats totalDowntimeStats].
  assert (Hnone :
    (forall b, time_ge_datetime db b startTime = true ->
               time_le_datetime db b endTime = true -> False) ->
    {| downtimeStats :=
         flat_map (fun m => intervalsOf m (beatsOf db startTime endTime m) endTime)
           completion;
       totalDowntimeStats :=
         flat_map (fun m => totalsOf m (beatsOf db startTime endTime m) endTime)
           completion |}
    = {| downtimeStats := [];
         totalDowntimeStats := map zeroTotal completion |}).
  { intro Hno.
    rewrite flat_map_empty, (flat_map_singleton _ zeroTotal); [reflexivity | |];
      intro m; unfold beatsOf; now rewrite heartbeat_query_none. }
  split; [|split; [|split; [exact Hnone|]]].
  3:{ intros Hge Hle. apply Hnone. intros b. rewrite Hge, Hle.
      now apply millisText_reversed. }
  - rewrite (flat_map_singleton _
               (fun m =>
                  {| Total.monitor_id := id m;
                     Total.monitor_name := name m;
                     Total.monitor_url := url m;
                     Total.downTime :=
                       formatTime
                         (totalDowntime
                            (finalLocals m (beatsOf db startTime endTime m)
                               endTime)) |}))
      by (intro m; apply totalsOf_eq).
    rewrite map_map. reflexivity.
  - intros i Hi. apply in_flat_map in Hi. destruct Hi as (m & Hm & Hi).
    rewrite intervalsOf_from in Hi.
    destruct (intervalsFrom_shape m endTime _ initialLocals i Hi)
      as ((Hid & _) & _ & Hdown & _).
    destruct Hdown as [[Hd _] | (b & Hb & Hs & Hdt)]; [discriminate Hd|].
    destruct (heartbeat_query_accepts _ _ _ _ _ Hb) as (Hin & Hge & Hle).
    exists m, b. auto 10.
Qed.

Lemma C2_reversed_window_not_rejected_witness :
  5 < 10
  /\ exists out,
       sendDowntimeStats demoDb [monitorB; monitorA] 10 5 =
         GetAllMonitors
           :: map (fun m => GetAllHeartbeats (id m) 10 5)
                (monitor_table demoDb)
           ++ [Emit out]
       /\ map (fun t => (Total.monitor_id t, Total.monitor_name t,
                         Total.monitor_url t))
            (totalDowntimeStats out)
          = map (fun m => (id m, name m, url m)) [monitorB; monitorA]
       /\ (forall i, In i (downtimeStats out) ->
           exists m b,
             In m [monitorB; monitorA]
             /\ Downtime.monitor_id i = id m
             /\ In (id m, b) (heartbeat_table demoDb)
             /\ status b = 0
             /\ Downtime.downTime i = Some (time b)
             /\ time_ge_datetime demoDb b 10 = true
             /\ time_le_datetime demoDb b 5 = true)
       /\ ((forall b, time_ge_datetime demoDb b 10 = true ->
                      time_le_datetime demoDb b 5 = true -> False) ->
           out = {| downtimeStats := [];
                    totalDowntimeStats :=
                      map zeroTotal [monitorB; monitorA] |})
       /\ (time_ge_datetime demoDb = millisText_ge ->
           time_le_datetime demoDb = millisText_le ->
           out = {| downtimeStats := [];
                    totalDowntimeStats :=
                      map zeroTotal [monitorB; monitorA] |}).
Proof.
  assert (H : 5 < 10) by lia.
  split; [exact H|].
  exact (C2_reversed_window_not_rejected demoDb [monitorB; monitorA] 10 5 H).
Defined.

(** A column written to the second does: with [startTime] at 0.9 s and
    [endTime] at 0.1 s, both cut to second 0, the heartbeat stored at second
    0 is returned and, being down, yields an interval. *)
Example reversed_window_interval :
  option_map
    (fun out => map (fun i => (downAt i, upAt i)) (downtimeStats out))
    (emitted (sendDowntimeStats secondDb [monitorA] 900 100))
  = Some [(0, 100)].
Proof. vm_compute. reflexivity. Qed.

(** ** C3: the order of the combined result *)

(** Over [demoDb], the run in which the query of monitor 2 completes first
    differs from the run in listing order. *)
Lemma C3_counterexample :
  completionOrder demoDb [monitorA; monitorB]
  /\ completionOrder demoDb [monitorB; monitorA]
  /\ sendDowntimeStats demoDb [monitorA; monitorB] 0 3600000
     <> sendDowntimeStats demoDb [monitorB; monitorA] 0 3600000.
Proof.
  split; [apply Permutation_refl|]. split; [apply perm_swap|].
  intro H.
  assert (E : option_map (fun out => map Total.monitor_id (totalDowntimeStats out))
                (emitted (sendDowntimeStats demoDb [monitorA; monitorB] 0 3600000))
              = option_map (fun out => map Total.monitor_id (totalDowntimeStats out))
                (emitted (sendDowntimeStats demoDb [monitorB; monitorA] 0 3600000)))
    by now rewrite H.
  vm_compute in E. discriminate E.
Qed.

Example completion_order_shows :
  option_map (fun out => map Total.monitor_id (totalDowntimeStats out))
    (emitted (sendDowntimeStats demoDb [monitorB; monitorA] 0 3600000))
  = Some [2; 1]
  /\ option_map (fun out => map Downtime.monitor_id (downtimeStats out))
       (emitted (sendDowntimeStats demoDb [monitorB; monitorA] 0 3600000))
     = Some [1; 1].
Proof. split; reflexivity. Qed.

(** C3, amended.  The combined result follows the order in which the
    heartbeat queries complete: the total-downtime sequence holds one record
    per monitor in completion order, and the interval sequence is the
    concatenation, in that same order, of the intervals of each monitor in
    the order its callback emitted them.  Two runs that differ only in the
    completion order emit the same records up to a permutation; they are the
    listing order only when the queries complete in listing order. *)
Theorem C3_output_in_completion_order
    (db : Database) (completion : list monitor) (startTime endTime : Z) :
  completionOrder db completion ->
  exists out,
    emitted (sendDowntimeStats db completion startTime endTime) = Some out
    /\ downtimeStats out =
         flat_map
           (fun m =>
              intervalsOf m (heartbeat_query db (id m) startTime endTime)
                endTime)
           completion
    /\ totalDowntimeStats out =
         map
           (fun m =>
              {| Total.monitor_id := id m;
                 Total.monitor_name := name m;
                 Total.monitor_url := url m;
                 Total.downTime :=
                   formatTime
                     (totalDowntime
                        (finalLocals m
                           (heartbeat_query db (id m) startTime endTime)
                           endTime)) |})
           completion
    /\ Permutation (downtimeStats out)
         (downtimeStats
            (runCallbacks db (monitor_table db) startTime endTime))
    /\ Permutation (totalDowntimeStats out)
         (totalDowntimeStats
            (runCallbacks db (monitor_table db) startTime endTime)).
Proof.
  intro Hperm. exists (runCallbacks db completion startTime endTime).
  split; [apply emitted_sendDowntimeStats|].
  rewrite !runCallbacks_eq; cbn [downtimeStats totalDowntimeStats].
  split; [reflexivity|]. split.
  - apply flat_map_singleton. intro m. apply totalsOf_eq.
  - split; apply Permutation_flat_map; symmetry; exact Hperm.
Qed.

Lemma C3_output_in_completion_order_witness :
  completionOrder demoDb [monitorB; monitorA]
  /\ exists out,
       emitted (sendDowntimeStats demoDb [monitorB; monitorA] 0 3600000)
         = Some out
       /\ downtimeStats out =
            flat_map
              (fun m =>
                 intervalsOf m (heartbeat_query demoDb (id m) 0 3600000)
                   3600000)
              [monitorB; monitorA]
       /\ totalDowntimeStats out =
            map
              (fun m =>
                 {| Total.monitor_id := id m;
                    Total.monitor_name := name m;
                    Total.monitor_url := url m;
                    Total.downTime :=
                      formatTime
                        (totalDowntime
                           (finalLocals m
                              (heartbeat_query demoDb (id m) 0 3600000)
                              3600000)) |})
              [monitorB; monitorA]
       /\ Permutation (downtimeStats out)
            (downtimeStats
               (runCallbacks demoDb (monitor_table demoDb) 0 3600000))
       /\ Permutation (totalDowntimeStats out)
            (totalDowntimeStats
               (runCallbacks demoDb (monitor_table demoDb) 0 3600000)).
Proof.
  assert (H : completionOrder demoDb [monitorB; monitorA]) by apply perm_swap.
  split; [exact H|].
  exact (C3_output_in_completion_order demoDb [monitorB; monitorA] 0 3600000 H).
Defined.

(** ** C5: order of the intervals of one monitor *)

(** Four heartbeats in ascending order, three of them at the same time: two
    intervals are emitted and both start at that time. *)
Lemma C5_counterexample :
  ascending tiedBeats
  /\ Forall (fun b => 0 <= time b <= 10000) tiedBeats
  /\ exists a b,
       nth_error (intervalsOf monitorA tiedBeats 10000) 0 = Some a
       /\ nth_error (intervalsOf monitorA tiedBeats 10000) 1 = Some b
       /\ ~ downAt a < downAt b.
Proof.
  split; [repeat constructor; cbn; lia|].
  split; [repeat constructor; cbn; lia|].
  eexists; eexists. split; [reflexivity|]. split; [reflexivity|].
  cbn. lia.
Qed.

Example tied_beats_intervals :
  map (fun i => (downAt i, upAt i)) (intervalsOf monitorA tiedBeats 10000)
  = [(5000, 5000); (5000, 6000)].
Proof. reflexivity. Qed.

Lemma nth_error_app_short {A : Type} (l f : list A) n a :
  (List.length f <= 1)%nat ->
  nth_error (l ++ f) n = Some a ->
  nth_error (l ++ f) (S n) <> None ->
  In a l.
Proof.
  intros Hf Ha Hb. apply nth_error_Some in Hb. rewrite length_app in Hb.
  rewrite nth_error_app1 in Ha by lia. eapply nth_error_In; eauto.
Qed.

(** C5, amended.  When the heartbeats of a monitor are in ascending order of
    time, heartbeats of equal time allowed, and none is after [endTime], the
    intervals of the monitor are in non-decreasing order of [downAt], and
    each one ends at or before the start of the next; [downAt] is strictly
    increasing when no two heartbeats have the same time. *)
Theorem C5_intervals_ordered
    (m : monitor) (heartbeats : list heartbeat) (endTime : Z)
    (n : nat) (a b : Downtime.entry) :
  ascending heartbeats ->
  Forall (fun x => time x <= endTime) heartbeats ->
  nth_error (intervalsOf m heartbeats endTime) n = Some a ->
  nth_error (intervalsOf m heartbeats endTime) (S n) = Some b ->
  downAt a <= downAt b
  /\ upAt a <= downAt b
  /\ (strictlyAscending heartbeats -> downAt a < downAt b).
Proof.
  intros Hasc Hwin Ha Hb.
  assert (Hch : exists lo, chained lo (intervalsOf m heartbeats endTime)).
  { destruct heartbeats as [|x r].
    - exists endTime. rewrite intervalsOf_from, intervalsFrom_nil. exact I.
    - exists (time x). rewrite intervalsOf_from.
      apply (intervalsFrom_chained m endTime (x :: r) initialLocals (time x));
        auto.
      + destruct (ascending_inv _ _ Hasc) as [_ Hhd].
        apply Forall_cons_iff in Hwin. destruct Hwin as [Hx Hwin].
        constructor; [lia|].
        rewrite Forall_forall in *. intros y Hy.
        specialize (Hhd y Hy). specialize (Hwin y Hy). lia.
      + apply Forall_cons_iff in Hwin. tauto.
      + intros H; discriminate H. }
  destruct Hch as [lo Hch].
  destruct (chained_adjacent _ lo n a b Hch Ha Hb) as [Hwf Hsep].
  split; [lia|]. split; [exact Hsep|].
  intro Hstrict.
  assert (Hpos : downAt a < upAt a); [|lia].
  rewrite intervalsOf_from, intervalsFrom_split in Ha, Hb.
  assert (Hin : In a (snd (loop m heartbeats initialLocals))).
  { eapply nth_error_app_short; [|exact Ha|rewrite Hb; discriminate].
    destruct (isDown _); cbn; lia. }
  pose proof (loop_positive m heartbeats initialLocals Hstrict) as Hall.
  rewrite Forall_forall in Hall. apply Hall; [|exact Hin].
  intros H; discriminate H.
Qed.

Lemma C5_intervals_ordered_witness :
  ascending spacedBeats
  /\ Forall (fun x => time x <= 3600000) spacedBeats
  /\ nth_error (intervalsOf monitorA spacedBeats 3600000) 0
     = Some (closing monitorA (opened initialLocals (beat 600000 0)) 1500000)
  /\ nth_error (intervalsOf monitorA spacedBeats 3600000) 1
     = Some (closing monitorA (opened initialLocals (beat 3000000 0)) 3600000)
  /\ downAt (closing monitorA (opened initialLocals (beat 600000 0)) 1500000)
     <= downAt (closing monitorA (opened initialLocals (beat 3000000 0)) 3600000)
  /\ upAt (closing monitorA (opened initialLocals (beat 600000 0)) 1500000)
     <= downAt (closing monitorA (opened initialLocals (beat 3000000 0)) 3600000)
  /\ (strictlyAscending spacedBeats ->
      downAt (closing monitorA (opened initialLocals (beat 600000 0)) 1500000)
      < downAt (closing monitorA (opened initialLocals (beat 3000000 0)) 3600000)).
Proof.
  assert (Hasc : ascending spacedBeats) by (repeat constructor; cbn; lia).
  assert (Hwin : Forall (fun x => time x <= 3600000) spacedBeats)
    by (repeat constructor; cbn; lia).
  assert (Ha : nth_error (intervalsOf monitorA spacedBeats 3600000) 0
               = Some (closing monitorA (opened initialLocals (beat 600000 0))
                         1500000)) by reflexivity.
  assert (Hb : nth_error (intervalsOf monitorA spacedBeats 3600000) 1
               = Some (closing monitorA (opened initialLocals (beat 3000000 0))
                         3600000)) by reflexivity.
  split; [exact Hasc|]. split; [exact Hwin|].
  split; [exact Ha|]. split; [exact Hb|].
  exact (C5_intervals_ordered monitorA spacedBeats 3600000 0 _ _
           Hasc Hwin Ha Hb).
Defined.

(** ** C9: [formatTime] *)

Lemma Qfloor_div_pos (x : Q) (k : positive) :
  Qfloor (x / (Zpos k # 1)) = Qfloor x / Zpos k.
Proof.
  destruct x as [p q]. unfold Qdiv, Qinv, Qmult, Qfloor; cbn [Qnum Qden inject_Z].
  rewrite Z.mul_1_r, Pos2Z.inj_mul. symmetry. apply Z.div_div; lia.
Qed.

Lemma Qfloor_sub_Z (x : Q) (z : Z) :
  Qfloor (x - inject_Z z) = Qfloor x - z.
Proof.
  destruct x as [p q]. unfold Qminus, Qplus, Qopp, Qfloor; cbn [Qnum Qden inject_Z].
  rewrite Z.mul_1_r, Pos.mul_1_r.
  replace (p + - z * Zpos q) with (p + (- z) * Zpos q) by lia.
  rewrite Z.div_add by lia. lia.
Qed.

Lemma trunc_nonneg (x : Q) : (0 <= x)%Q -> Js.trunc x = Qfloor x.
Proof.
  destruct x as [p q]. unfold Qle, Js.trunc, Qfloor; cbn [Qnum Qden].
  intro H. apply Z.quot_div_nonneg; lia.
Qed.

Lemma Qdiv_pos_nonneg (x : Q) (k : positive) :
  (0 <= x)%Q -> (0 <= x / (Zpos k # 1))%Q.
Proof.
  destruct x as [p q]. unfold Qle, Qdiv, Qinv, Qmult; cbn [Qnum Qden inject_Z].
  lia.
Qed.

Lemma Qfloor_rem_pos (t : Q) (k : positive) :
  (0 <= t)%Q ->
  Qfloor (Js.rem t (Zpos k # 1)) = Qfloor t mod Zpos k.
Proof.
  intro Ht. unfold Js.rem.
  rewrite trunc_nonneg by now apply Qdiv_pos_nonneg.
  rewrite Qfloor_div_pos.
  change ((Zpos k # 1) * inject_Z (Qfloor t / Zpos k))%Q
    with (inject_Z (Zpos k * (Qfloor t / Zpos k))).
  rewrite Qfloor_sub_Z. rewrite Z.mod_eq by lia. reflexivity.
Qed.

Lemma pad2_table :
  forallb
    (fun i =>
       String.eqb (Js.padStart 2 "0" (Js.String_ (Z.of_nat i)))
         (twoDigits (Z.of_nat i)))
    (seq 0 100) = true.
Proof. vm_compute. reflexivity. Qed.

Lemma pad2_twoDigits (k : Z) :
  0 <= k < 100 -> Js.padStart 2 "0" (Js.String_ k) = twoDigits k.
Proof.
  intro Hk. pose proof pad2_table as H. rewrite forallb_forall in H.
  specialize (H (Z.to_nat k)). rewrite Z2Nat.id in H by lia.
  apply String.eqb_eq, H, in_seq. lia.
Qed.

Lemma Qfloor_nonneg_le (z : Z) (t : Q) : (inject_Z z <= t)%Q -> z <= Qfloor t.
Proof.
  intro H. rewrite <- (Qfloor_Z z). now apply Qfloor_resp_le.
Qed.

Lemma minutes_range (n : Z) : 0 <= (n mod 3600) / 60 <= 59.
Proof.
  pose proof (Z.mod_pos_bound n 3600 eq_refl) as H. split.
  - apply Z.div_pos; lia.
  - apply Z.lt_succ_r. apply Z.div_lt_upper_bound; lia.
Qed.

Lemma seconds_range (n : Z) : 0 <= n mod 60 <= 59.
Proof. pose proof (Z.mod_pos_bound n 60 eq_refl). lia. Qed.

(** C9.  For a duration [t >= 0] in seconds, with [n] its whole seconds:
    [formatTime t] is the hour component, a colon, two digits of minutes, a
    colon and two digits of seconds; the hour component is
    [floor (t / 3600)], padded to two digits below 10 and never reduced
    modulo 24, so that it is 24 or more from 24 hours on; minutes and
    seconds are between 00 and 59. *)
Theorem C9_formatTime_no_day_rollover (t : Q) :
  (0 <= t)%Q ->
  let n := Qfloor t in
  let h := Js.Math_floor (t / 3600) in
  let mi := (n mod 3600) / 60 in
  let s := n mod 60 in
  formatTime t =
    (Js.padStart 2 "0" (Js.String_ h) ++ ":" ++ twoDigits mi
       ++ ":" ++ twoDigits s)%string
  /\ h = n / 3600
  /\ 0 <= mi <= 59
  /\ 0 <= s <= 59
  /\ (h < 100 -> Js.padStart 2 "0" (Js.String_ h) = twoDigits h)
  /\ ((86400 <= t)%Q -> 24 <= h).
Proof.
  intros Ht n h mi s.
  assert (Hn : 0 <= n) by (apply (Qfloor_nonneg_le 0); exact Ht).
  assert (Hh : h = n / 3600) by apply (Qfloor_div_pos t 3600).
  assert (Hmi : Js.Math_floor (Js.rem t 3600 / 60) = mi).
  { unfold Js.Math_floor. rewrite (Qfloor_div_pos _ 60).
    now rewrite (Qfloor_rem_pos t 3600 Ht). }
  assert (Hs : Js.Math_floor (Js.rem t 60) = s)
    by apply (Qfloor_rem_pos t 60 Ht).
  assert (Rmi : 0 <= mi <= 59) by apply minutes_range.
  assert (Rs : 0 <= s <= 59) by apply seconds_range.
  split.
  { unfold formatTime. fold h. rewrite Hmi, Hs.
    rewrite (pad2_twoDigits mi), (pad2_twoDigits s) by lia. reflexivity. }
  split; [exact Hh|]. split; [exact Rmi|]. split; [exact Rs|]. split.
  - intro Hlt. apply pad2_twoDigits. split; [|exact Hlt].
    rewrite Hh. apply Z.div_pos; lia.
  - intro Hday. apply (Qfloor_nonneg_le 86400) in Hday. fold n in Hday.
    rewrite Hh. apply (Z.div_le_lower_bound n 3600 24); lia.
Qed.

Lemma C9_formatTime_no_day_rollover_witness :
  (0 <= 90061 # 1)%Q
  /\ let n := Qfloor (90061 # 1) in
     let h := Js.Math_floor ((90061 # 1) / 3600) in
     let mi := (n mod 3600) / 60 in
     let s := n mod 60 in
     formatTime (90061 # 1) =
       (Js.padStart 2 "0" (Js.String_ h) ++ ":" ++ twoDigits mi
          ++ ":" ++ twoDigits s)%string
     /\ h = n / 3600
     /\ 0 <= mi <= 59
     /\ 0 <= s <= 59
     /\ (h < 100 -> Js.padStart 2 "0" (Js.String_ h) = twoDigits h)
     /\ ((86400 <= 90061 # 1)%Q -> 24 <= h).
Proof.
  assert (H : (0 <= 90061 # 1)%Q) by (unfold Qle; cbn; lia).
  split; [exact H|].
  exact (C9_formatTime_no_day_rollover (90061 # 1) H).
Defined.

Example formatTime_examples :
  formatTime 900 = "00:15:00"%string
  /\ formatTime (90061 # 1) = "25:01:01"%string
  /\ formatTime 360000 = "100:00:00"%string
  /\ formatTime (3599999 # 1000) = "00:59:59"%string.
Proof. repeat split; reflexivity. Qed.


(** * Further properties of the downtime pass *)

(** ** What an emitted interval is made of *)

(** X1.  An interval pushed by a callback carries the id, name and url of its
    monitor; its [downTime] is the time of a heartbeat of status 0 and is
    never [null]; its [upTime] is the time of a heartbeat of status 1 or
    [endTime]; its [duration] is the formatting of the double
    [(upTime - downTime) / 1000]. *)
Theorem interval_made_of_heartbeats
    (m : monitor) (heartbeats : list heartbeat) (endTime : Z)
    (a : arrays) (i : Downtime.entry) :
  In i (downtimeStats (monitorTask m heartbeats endTime a)) ->
  In i (downtimeStats a)
  \/ ((Downtime.monitor_id i = id m
       /\ Downtime.monitor_name i = name m
       /\ Downtime.monitor_url i = url m)
      /\ Downtime.duration i =
           formatTime
             (Js.div (Js.sub (inject_Z (upAt i)) (inject_Z (downAt i))) 1000)
      /\ (exists b, In b heartbeats /\ status b = 0
                    /\ Downtime.downTime i = Some (time b))
      /\ (Downtime.upTime i = endTime
          \/ exists b, In b heartbeats /\ status b = 1
                       /\ Downtime.upTime i = time b)).
Proof.
  rewrite monitorTask_appends; cbn [downtimeStats]. rewrite in_app_iff.
  intros [Hi | Hi]; [now left | right].
  rewrite intervalsOf_from in Hi.
  destruct (intervalsFrom_shape m endTime heartbeats initialLocals i Hi)
    as (Hid & Hdur & Hdown & Hup).
  split; [exact Hid|]. split; [exact Hdur|]. split; [|exact Hup].
  destruct Hdown as [[Hd _] | H]; [discriminate Hd | exact H].
Qed.

Lemma interval_made_of_heartbeats_witness :
  In (closing monitorA (opened initialLocals (beat 600000 0)) 1500000)
     (downtimeStats (monitorTask monitorA spacedBeats 3600000 noArrays))
  /\ (In (closing monitorA (opened initialLocals (beat 600000 0)) 1500000)
        (downtimeStats noArrays)
      \/ ((Downtime.monitor_id
             (closing monitorA (opened initialLocals (beat 600000 0)) 1500000)
           = id monitorA
           /\ Downtime.monitor_name
                (closing monitorA (opened initialLocals (beat 600000 0)) 1500000)
              = name monitorA
           /\ Downtime.monitor_url
                (closing monitorA (opened initialLocals (beat 600000 0)) 1500000)
              = url monitorA)
          /\ Downtime.duration
               (closing monitorA (opened initialLocals (beat 600000 0)) 1500000)
             = formatTime
                 (Js.div
                    (Js.sub
                       (inject_Z
                          (upAt (closing monitorA
                                   (opened initialLocals (beat 600000 0))
                                   1500000)))
                       (inject_Z
                          (downAt (closing monitorA
                                     (opened initialLocals (beat 600000 0))
                                     1500000))))
                    1000)
          /\ (exists b, In b spacedBeats /\ status b = 0
                        /\ Downtime.downTime
                             (closing monitorA
                                (opened initialLocals (beat 600000 0)) 1500000)
                           = Some (time b))
          /\ (Downtime.upTime
                (closing monitorA (opened initialLocals (beat 600000 0)) 1500000)
              = 3600000
              \/ exists b, In b spacedBeats /\ status b = 1
                           /\ Downtime.upTime
                                (closing monitorA
                                   (opened initialLocals (beat 600000 0))
                                   1500000)
                              = time b))).
Proof.
  assert (H : In (closing monitorA (opened initialLocals (beat 600000 0)) 1500000)
                (downtimeStats (monitorTask monitorA spacedBeats 3600000 noArrays)))
    by (left; reflexivity).
  split; [exact H|].
  exact (interval_made_of_heartbeats monitorA spacedBeats 3600000 noArrays _ H).
Defined.

(** ** How many intervals *)

Lemma countStatus_cons s b bs :
  countStatus s (b :: bs) =
  ((if (status b =? s)%Z then 1 else 0) + countStatus s bs)%nat.
Proof. unfold countStatus; cbn. now destruct (status b =? s). Qed.

Lemma loop_length monitor heartbeats : forall v,
  (List.length (snd (loop monitor heartbeats v)) <= countStatus 1 heartbeats)%nat.
Proof.
  induction heartbeats as [|b bs IH]; intro v; [cbn; lia|].
  rewrite loop_cons, countStatus_cons; cbn [snd]. rewrite length_app.
  specialize (IH (fst (forEachBody monitor (v, []) b))).
  destruct (forEachBody_cases monitor v b)
    as [(_ & _ & E) | [(Hs & _ & E) | (_ & _ & E)]];
    rewrite E in *; cbn [fst snd List.length] in *; try lia.
  rewrite Hs; cbn. lia.
Qed.

Lemma intervalsFrom_length monitor endTime heartbeats : forall v,
  (List.length (intervalsFrom monitor heartbeats endTime v)
   <= countStatus 0 heartbeats + (if isDown v then 1 else 0))%nat.
Proof.
  induction heartbeats as [|b bs IH]; intro v.
  - rewrite intervalsFrom_nil. destruct (isDown v); cbn; lia.
  - rewrite intervalsFrom_cons, countStatus_cons, length_app.
    specialize (IH (fst (forEachBody monitor (v, []) b))).
    destruct (forEachBody_cases monitor v b)
      as [(Hs & Ed & E) | [(Hs & Ed & E) | (_ & _ & E)]];
      rewrite E in *; cbn [fst snd List.length isDown opened closed] in *.
    + rewrite Hs, Ed; cbn. lia.
    + rewrite Ed. destruct (status b =? 0); lia.
    + destruct (status b =? 0), (isDown v); lia.
Qed.

(** X2.  A callback emits at most one interval per heartbeat of status 0, and at
    most one more than there are heartbeats of status 1: only the last
    interval can be one that no heartbeat closed. *)
Theorem interval_count_bounded
    (m : monitor) (heartbeats : list heartbeat) (endTime : Z) :
  (List.length (intervalsOf m heartbeats endTime)
   <= countStatus 0 heartbeats)%nat
  /\ (List.length (intervalsOf m heartbeats endTime)
      <= countStatus 1 heartbeats + 1)%nat.
Proof.
  split.
  - rewrite intervalsOf_from.
    pose proof (intervalsFrom_length m endTime heartbeats initialLocals) as H.
    cbn [isDown initialLocals] in H. lia.
  - rewrite intervalsOf_from, intervalsFrom_split, length_app.
    pose proof (loop_length m heartbeats initialLocals) as H.
    destruct (isDown _); cbn [List.length]; lia.
Qed.

(** ** Heartbeats before the first down *)

Lemma fold_forEachBody_loop monitor heartbeats v stats :
  fold_left (forEachBody monitor) heartbeats (v, stats) =
  (fst (loop monitor heartbeats v), stats ++ snd (loop monitor heartbeats v)).
Proof.
  unfold loop. rewrite <- (app_nil_r stats) at 1.
  apply fold_forEachBody_frame.
Qed.

(** X3.  The heartbeats that precede the first heartbeat of status 0 have no
    effect on what a callback pushes. *)
Theorem leading_heartbeats_ignored
    (m : monitor) (pre post : list heartbeat) (endTime : Z) (a : arrays) :
  Forall (fun b => status b <> 0) pre ->
  monitorTask m (pre ++ post) endTime a = monitorTask m post endTime a.
Proof.
  intro Hpre. unfold monitorTask. rewrite fold_left_app.
  rewrite (fold_forEachBody_loop m pre).
  rewrite (loop_no_down m pre initialLocals Hpre eq_refl); cbn [fst snd].
  now rewrite app_nil_r.
Qed.

Lemma leading_heartbeats_ignored_witness :
  Forall (fun b => status b <> 0) [beat 60000 1; beat 120000 2]
  /\ monitorTask monitorA ([beat 60000 1; beat 120000 2] ++ spacedBeats)
       3600000 noArrays
     = monitorTask monitorA spacedBeats 3600000 noArrays.
Proof.
  assert (H : Forall (fun b => status b <> 0) [beat 60000 1; beat 120000 2])
    by (repeat constructor; cbn; lia).
  split; [exact H|].
  exact (leading_heartbeats_ignored monitorA [beat 60000 1; beat 120000 2]
           spacedBeats 3600000 noArrays H).
Defined.

(** ** The nearest double *)

Lemma fl_comp (x y : Q) : (x == y)%Q -> Js.fl x = Js.fl y.
Proof. intro H. unfold Js.fl. now rewrite (Qred_complete x y H). Qed.

Lemma Qred_inject_Z (z : Z) : Qred (inject_Z z) = inject_Z z.
Proof.
  pose proof (Qred_correct (inject_Z z)) as He.
  pose proof (gcd_Qred (inject_Z z)) as Hg.
  destruct (Qred (inject_Z z)) as [n d]. unfold Qeq in He. cbn in He, Hg.
  assert (Hd : Zpos d = 1).
  { assert (Hdiv : (Zpos d | n)) by (exists z; lia).
    assert (Hdd : (Zpos d | Z.gcd n (Zpos d)))
      by (apply Z.gcd_greatest; [exact Hdiv | apply Z.divide_refl]).
    rewrite Hg in Hdd. apply Z.divide_1_r in Hdd. lia. }
  injection Hd as ->. unfold inject_Z. f_equal. lia.
Qed.

Lemma roundHalfEven_1 (p : Z) : Js.roundHalfEven p 1 = p.
Proof.
  unfold Js.roundHalfEven. rewrite Z.div_1_r, Z.mod_1_r. reflexivity.
Qed.

Lemma exponent_1 (z : Z) : 0 < z -> Js.exponent z 1 = Z.log2 z.
Proof.
  intro Hz. unfold Js.exponent. change (Z.log2 1) with 0. rewrite Z.sub_0_r.
  pose proof (Z.log2_nonneg z) as Hk.
  rewrite (Z.max_r 0 (Z.log2 z)), (Z.max_l 0 (- Z.log2 z)) by lia.
  rewrite Z.pow_0_r, Z.mul_1_r, Z.mul_1_l.
  destruct (Z.leb_spec (2 ^ Z.log2 z) z) as [_|H]; [reflexivity|].
  pose proof (Z.log2_spec z Hz). lia.
Qed.

(** A whole number below [2 ^ 53] is a double. *)
Lemma fl_inject_Z (z : Z) :
  0 <= z < 2 ^ 53 -> Js.fl (inject_Z z) = inject_Z z.
Proof.
  intros [H0 H53]. destruct (Z.eq_dec z 0) as [->|Hnz]; [reflexivity|].
  assert (Hz : 0 < z) by lia.
  unfold Js.fl. rewrite Qred_inject_Z. cbn [Qnum Qden inject_Z].
  rewrite Z.abs_eq by lia.
  destruct (Z.eqb_spec z 0) as [E|_]; [contradiction|].
  rewrite (exponent_1 z Hz).
  assert (Hk : 0 <= Z.log2 z < 53).
  { split; [apply Z.log2_nonneg|]. apply Z.log2_lt_pow2; lia. }
  rewrite (Z.max_l 0 (Z.log2 z - 52)), (Z.max_r 0 (- (Z.log2 z - 52))) by lia.
  rewrite Z.pow_0_r. change (1 * 1) with 1.
  rewrite roundHalfEven_1, Z.mul_1_r, Z.sgn_pos by lia.
  rewrite <- (Qred_inject_Z z). apply Qred_complete.
  unfold Qeq; cbn [Qnum Qden inject_Z].
  rewrite Z2Pos.id by (apply Z.pow_pos_nonneg; lia). lia.
Qed.

Lemma add_inject_Z (a b : Z) :
  0 <= a + b < 2 ^ 53 ->
  Js.add (inject_Z a) (inject_Z b) = inject_Z (a + b).
Proof.
  intro H. unfold Js.add.
  rewrite (fl_comp _ (inject_Z (a + b))) by (now rewrite inject_Z_plus).
  now apply fl_inject_Z.
Qed.

(** An interval of [k] whole seconds measures [k]. *)
Lemma seconds_whole (i : Downtime.entry) (k : Z) :
  upAt i - downAt i = 1000 * k -> 0 <= 1000 * k < 2 ^ 53 ->
  seconds i = inject_Z k.
Proof.
  intros Hk Hr. unfold seconds, secondsBetween, Js.sub, Js.div.
  change (Js.Date (Some (Downtime.upTime i))) with (upAt i).
  change (Js.Date (Downtime.downTime i)) with (downAt i).
  rewrite (fl_comp (inject_Z (upAt i) - inject_Z (downAt i))
             (inject_Z (1000 * k))).
  2:{ rewrite <- Hk. unfold Zminus. rewrite inject_Z_plus, inject_Z_opp.
      reflexivity. }
  rewrite fl_inject_Z by exact Hr.
  rewrite (fl_comp (inject_Z (1000 * k) / 1000) (inject_Z k)).
  2:{ unfold Qeq, Qdiv, Qmult, Qinv, inject_Z; cbn [Qnum Qden]. lia. }
  apply fl_inject_Z. lia.
Qed.

(** The model against the binary64 operations of the standard library, on
    running sums of milliseconds turned into seconds as the code does. *)
Example doubles_as_binary64 :
  forallb sumAgrees
    [ [30; 282; 688]; [1; 2; 3; 4; 5; 6; 7]; [999; 1; 1000; 86400000];
      map (fun n => (Z.of_nat n * 7919 + 13) mod 100003) (seq 0 300);
      map (fun n => (Z.of_nat n * 104729 + 7) mod 8640000000001) (seq 0 300);
      map (fun n =>
             (Z.of_nat n * 15485863 + 1) mod 3001 - 1500) (seq 0 300) ]
  = true.
Proof. vm_compute. reflexivity. Qed.

(** ** The total for whole seconds *)

Lemma chained_nonneg l : forall lo,
  chained lo l -> Forall (fun i => 0 <= upAt i - downAt i) l.
Proof.
  induction l as [|i r IH]; intros lo Hc; constructor.
  - destruct Hc as (_ & Hi & _). lia.
  - destruct Hc as (_ & _ & Hr). eapply IH; eauto.
Qed.

Lemma chained_lower l : forall lo,
  chained lo l -> Forall (fun i => lo <= downAt i) l.
Proof.
  induction l as [|i r IH]; intros lo Hc; constructor.
  - destruct Hc as (Hlo & _). exact Hlo.
  - destruct Hc as (Hlo & Hi & Hr).
    eapply Forall_impl; [|exact (IH _ Hr)]. cbn; intros; lia.
Qed.

Lemma chained_sumMs l : forall lo hi,
  chained lo l -> Forall (fun i => upAt i <= hi) l -> lo <= hi ->
  0 <= sumMs l <= hi - lo.
Proof.
  induction l as [|i r IH]; intros lo hi Hc Hup Hle; cbn [sumMs].
  - lia.
  - destruct Hc as (Hlo & Hwf & Hr).
    apply Forall_cons_iff in Hup. destruct Hup as [Hi Hup].
    specialize (IH (upAt i) hi Hr Hup Hi). lia.
Qed.

Lemma sumMs_nonneg l :
  Forall (fun i => 0 <= upAt i - downAt i) l -> 0 <= sumMs l.
Proof.
  induction 1 as [|i r Hi _ IH]; cbn [sumMs]; lia.
Qed.

Lemma sumSeconds_whole l : forall a,
  0 <= a ->
  Forall (fun i => 0 <= upAt i - downAt i) l ->
  Forall (fun i => (upAt i - downAt i) mod 1000 = 0) l ->
  1000 * a + sumMs l < 2 ^ 53 ->
  sumSeconds (inject_Z a) l = inject_Z (a + sumMs l / 1000)
  /\ sumMs l mod 1000 = 0.
Proof.
  induction l as [|i r IH]; intros a Ha Hpos Hmod Hlt.
  - cbn. rewrite Z.add_0_r. auto.
  - apply Forall_cons_iff in Hpos. destruct Hpos as [Hi Hpos].
    apply Forall_cons_iff in Hmod. destruct Hmod as [Hm Hmod].
    pose proof (sumMs_nonneg r Hpos) as Hr.
    cbn [sumMs] in Hlt |- *.
    set (k := (upAt i - downAt i) / 1000).
    assert (Hk : upAt i - downAt i = 1000 * k)
      by (unfold k; apply Z.div_exact; [lia | exact Hm]).
    assert (Hk0 : 0 <= k) by lia.
    cbn [sumSeconds fold_left]. fold (sumSeconds (Js.add (inject_Z a) (seconds i)) r).
    rewrite (seconds_whole i k Hk) by lia.
    rewrite add_inject_Z by lia.
    assert (Hlt' : 1000 * (a + k) + sumMs r < 2 ^ 53) by lia.
    destruct (IH (a + k) ltac:(lia) Hpos Hmod Hlt') as [IHs IHm].
    rewrite IHs. split.
    + f_equal. rewrite Hk.
      rewrite (Z.mul_comm 1000 k), Z.div_add_l by lia. lia.
    + rewrite Hk. rewrite Z.add_comm, (Z.mul_comm 1000 k), Z.mod_add by lia.
      exact IHm.
Qed.

(** For intervals in a chain within [lo, hi] that last whole seconds, the
    running sum of the code is the exact sum. *)
Lemma sumSeconds_exact l lo hi :
  chained lo l -> Forall (fun i => upAt i <= hi) l -> lo <= hi ->
  hi - lo < 2 ^ 53 ->
  Forall (fun i => (upAt i - downAt i) mod 1000 = 0) l ->
  sumSeconds 0 l = inject_Z (sumMs l / 1000)
  /\ 1000 * (sumMs l / 1000) = sumMs l.
Proof.
  intros Hc Hup Hle Hlt Hmod.
  pose proof (chained_sumMs l lo hi Hc Hup Hle) as Hs.
  destruct (sumSeconds_whole l 0) as [He Hm]; auto; try lia.
  { eapply chained_nonneg; eauto. }
  split; [exact He|]. symmetry. apply Z.div_exact; [lia | exact Hm].
Qed.

(** X4.  When the heartbeats of a callback are in ascending order within
    [lo] and [endTime], and every time, [endTime] too, is a whole second,
    the total that is formatted is exactly the summed length of the
    intervals in seconds, and it lies between 0 and the [endTime - lo] of
    the window. *)
Theorem total_exact_for_whole_seconds
    (m : monitor) (heartbeats : list heartbeat) (endTime lo : Z) :
  ascending heartbeats ->
  Forall (fun b => lo <= time b <= endTime) heartbeats ->
  Forall (fun b => time b mod 1000 = 0) heartbeats ->
  endTime mod 1000 = 0 ->
  endTime - lo < 2 ^ 53 ->
  let ms := sumMs (intervalsOf m heartbeats endTime) in
  totalDowntime (finalLocals m heartbeats endTime) = inject_Z (ms / 1000)
  /\ 1000 * (ms / 1000) = ms
  /\ 0 <= ms <= Z.max 0 (endTime - lo).
Proof.
  intros Hasc Hwin Hwhole He Hlt ms.
  destruct (intervalsOf_partition m heartbeats lo endTime Hasc Hwin)
    as (Hc & Hup & _).
  destruct heartbeats as [|b0 bs].
  { unfold ms. rewrite finalLocals_total, intervalsOf_from, intervalsFrom_nil.
    cbn. repeat split; lia. }
  assert (Hle : lo <= endTime).
  { apply Forall_cons_iff in Hwin. lia. }
  assert (Hmod : Forall (fun i => (upAt i - downAt i) mod 1000 = 0)
                   (intervalsOf m (b0 :: bs) endTime)).
  { apply Forall_forall. intros i Hi. rewrite intervalsOf_from in Hi.
    destruct (intervalsFrom_shape m endTime _ initialLocals i Hi)
      as (_ & _ & Hdown & Hu).
    destruct Hdown as [[Hd _] | (b & Hb & _ & Hdt)]; [discriminate Hd|].
    rewrite Forall_forall in Hwhole.
    assert (Hdm : downAt i mod 1000 = 0).
    { unfold downAt. rewrite Hdt. cbn. now apply Hwhole. }
    assert (Hum : upAt i mod 1000 = 0).
    { unfold upAt. destruct Hu as [-> | (b' & Hb' & _ & ->)]; auto. }
    rewrite Zminus_mod, Hdm, Hum. reflexivity. }
  destruct (sumSeconds_exact _ lo endTime Hc Hup Hle Hlt Hmod) as [Hs Hd].
  pose proof (chained_sumMs _ lo endTime Hc Hup Hle) as Hb.
  unfold ms. rewrite finalLocals_total. repeat split; auto; lia.
Qed.

Lemma total_exact_for_whole_seconds_witness :
  ascending spacedBeats
  /\ Forall (fun b => 0 <= time b <= 3600000) spacedBeats
  /\ Forall (fun b => time b mod 1000 = 0) spacedBeats
  /\ 3600000 mod 1000 = 0
  /\ 3600000 - 0 < 2 ^ 53
  /\ let ms := sumMs (intervalsOf monitorA spacedBeats 3600000) in
     totalDowntime (finalLocals monitorA spacedBeats 3600000)
       = inject_Z (ms / 1000)
     /\ 1000 * (ms / 1000) = ms
     /\ 0 <= ms <= Z.max 0 (3600000 - 0).
Proof.
  assert (Hasc : ascending spacedBeats) by (repeat constructor; cbn; lia).
  assert (Hwin : Forall (fun b => 0 <= time b <= 3600000) spacedBeats)
    by (repeat constructor; cbn; lia).
  assert (Hwhole : Forall (fun b => time b mod 1000 = 0) spacedBeats)
    by (repeat constructor).
  assert (He : 3600000 mod 1000 = 0) by reflexivity.
  assert (Hlt : 3600000 - 0 < 2 ^ 53) by (vm_compute; reflexivity).
  split; [exact Hasc|]. split; [exact Hwin|]. split; [exact Hwhole|].
  split; [exact He|]. split; [exact Hlt|].
  exact (total_exact_for_whole_seconds monitorA spacedBeats 3600000 0
           Hasc Hwin Hwhole He Hlt).
Defined.

(** ** Moving the window *)

Lemma secondsBetween_shift upTime k v :
  downTime v <> None ->
  secondsBetween (Some (upTime + k)) (downTime (shiftLocals k v))
  = secondsBetween (Some upTime) (downTime v).
Proof.
  intro Hv. unfold secondsBetween, shiftLocals; cbn [downTime].
  destruct (downTime v) as [d|]; [|now destruct Hv].
  cbn [option_map Js.Date]. f_equal. unfold Js.sub. apply fl_comp.
  rewrite !inject_Z_plus. ring.
Qed.

Lemma closing_shift monitor k v upTime :
  downTime v <> None ->
  closing monitor (shiftLocals k v) (upTime + k)
  = shiftEntry k (closing monitor v upTime).
Proof.
  intro Hv. unfold closing at 1. rewrite secondsBetween_shift by exact Hv.
  reflexivity.
Qed.

Lemma closed_shift k v b :
  downTime v <> None ->
  closed (shiftLocals k v) (shiftBeat k b) = shiftLocals k (closed v b).
Proof.
  intro Hv. unfold closed at 1. cbn [time shiftBeat].
  rewrite secondsBetween_shift by exact Hv. reflexivity.
Qed.

Lemma forEachBody_shift monitor k v b :
  (isDown v = true -> downTime v <> None) ->
  forEachBody monitor (shiftLocals k v, []) (shiftBeat k b) =
  (shiftLocals k (fst (forEachBody monitor (v, []) b)),
   map (shiftEntry k) (snd (forEachBody monitor (v, []) b))).
Proof.
  intro Hv.
  destruct (forEachBody_cases monitor v b)
    as [(Hs & Ed & E) | [(Hs & Ed & E) | (H0 & H1 & E)]]; rewrite E;
    cbn [fst snd map];
    destruct (forEachBody_cases monitor (shiftLocals k v) (shiftBeat k b))
      as [(Hs' & Ed' & E') | [(Hs' & Ed' & E') | (H0' & H1' & E')]];
    cbn [shiftLocals shiftBeat isDown status] in *; rewrite E';
    try congruence; try lia.
  - reflexivity.
  - destruct H0'; congruence.
  - cbn [time shiftBeat].
    rewrite closed_shift, closing_shift by (now apply Hv). reflexivity.
  - destruct H1'; congruence.
  - destruct H0; congruence.
  - destruct H1; congruence.
Qed.

Lemma forEachBody_keeps_downTime monitor v b :
  (isDown v = true -> downTime v <> None) ->
  isDown (fst (forEachBody monitor (v, []) b)) = true ->
  downTime (fst (forEachBody monitor (v, []) b)) <> None.
Proof.
  intro Hv.
  destruct (forEachBody_cases monitor v b)
    as [(_ & _ & E) | [(_ & _ & E) | (_ & _ & E)]]; rewrite E; cbn;
    auto; discriminate.
Qed.

Lemma loop_shift monitor k heartbeats : forall v,
  (isDown v = true -> downTime v <> None) ->
  loop monitor (map (shiftBeat k) heartbeats) (shiftLocals k v) =
  (shiftLocals k (fst (loop monitor heartbeats v)),
   map (shiftEntry k) (snd (loop monitor heartbeats v))).
Proof.
  induction heartbeats as [|b bs IH]; intros v Hv; [reflexivity|].
  cbn [map]. rewrite !loop_cons, forEachBody_shift by exact Hv.
  cbn [fst snd]. rewrite IH by now apply forEachBody_keeps_downTime.
  cbn [fst snd]. now rewrite map_app.
Qed.

Lemma loop_keeps_downTime monitor heartbeats : forall v,
  (isDown v = true -> downTime v <> None) ->
  isDown (fst (loop monitor heartbeats v)) = true ->
  downTime (fst (loop monitor heartbeats v)) <> None.
Proof.
  induction heartbeats as [|b bs IH]; intros v Hv; [exact Hv|].
  rewrite loop_cons; cbn [fst]. apply IH.
  now apply forEachBody_keeps_downTime.
Qed.

Lemma finalLocals_eq monitor heartbeats endTime :
  totalDowntime (finalLocals monitor heartbeats endTime) =
  if isDown (fst (loop monitor heartbeats initialLocals))
  then Js.add (totalDowntime (fst (loop monitor heartbeats initialLocals)))
         (secondsBetween (Some endTime)
            (downTime (fst (loop monitor heartbeats initialLocals))))
  else totalDowntime (fst (loop monitor heartbeats initialLocals)).
Proof.
  unfold finalLocals. rewrite closeAtEnd_pair; cbn [fst].
  unfold closeAtEnd. now destruct (isDown _).
Qed.

(** X5.  The result depends on time differences only: moving every heartbeat and
    [endTime] by the same [k] moves the [downTime] and [upTime] of every
    interval by [k] and changes neither a [duration] nor the total. *)
Theorem window_shift
    (m : monitor) (heartbeats : list heartbeat) (endTime k : Z) :
  intervalsOf m (map (shiftBeat k) heartbeats) (endTime + k)
  = map (shiftEntry k) (intervalsOf m heartbeats endTime)
  /\ totalsOf m (map (shiftBeat k) heartbeats) (endTime + k)
     = totalsOf m heartbeats endTime.
Proof.
  assert (Hinit : isDown initialLocals = true -> downTime initialLocals <> None)
    by (intro H; discriminate H).
  pose proof (loop_shift m k heartbeats initialLocals Hinit) as Hloop.
  pose proof (loop_keeps_downTime m heartbeats initialLocals Hinit) as Hkeep.
  change (shiftLocals k initialLocals) with initialLocals in Hloop.
  split.
  - rewrite !intervalsOf_from, !intervalsFrom_split, Hloop; cbn [fst snd].
    rewrite map_app. f_equal.
    change (isDown (shiftLocals k (fst (loop m heartbeats initialLocals))))
      with (isDown (fst (loop m heartbeats initialLocals))).
    destruct (isDown (fst (loop m heartbeats initialLocals))) eqn:Ed;
      [|reflexivity].
    cbn [map]. f_equal. apply closing_shift. now apply Hkeep.
  - rewrite !totalsOf_eq, !finalLocals_eq, Hloop; cbn [fst].
    change (isDown (shiftLocals k (fst (loop m heartbeats initialLocals))))
      with (isDown (fst (loop m heartbeats initialLocals))).
    change (totalDowntime (shiftLocals k (fst (loop m heartbeats initialLocals))))
      with (totalDowntime (fst (loop m heartbeats initialLocals))).
    destruct (isDown (fst (loop m heartbeats initialLocals))) eqn:Ed;
      [|reflexivity].
    rewrite secondsBetween_shift by now apply Hkeep. reflexivity.
Qed.

Example window_shift_example :
  map (fun i => (downAt i, upAt i, Downtime.duration i))
    (intervalsOf monitorA (map (shiftBeat 86400000) spacedBeats)
       (3600000 + 86400000))
  = [ (87000000, 87900000, "00:15:00"%string);
      (89400000, 90000000, "00:10:00"%string) ].
Proof. reflexivity. Qed.

(** ** Which rows a monitor's statistics depend on *)

Lemma heartbeat_query_skip_row ms pre post ge le j b i s e :
  j <> i ->
  heartbeat_query
    {| monitor_table := ms; heartbeat_table := pre ++ (j, b) :: post;
       time_ge_datetime := ge; time_le_datetime := le |} i s e
  = heartbeat_query
      {| monitor_table := ms; heartbeat_table := pre ++ post;
         time_ge_datetime := ge; time_le_datetime := le |} i s e.
Proof.
  intro H. unfold heartbeat_query;
    cbn [heartbeat_table time_ge_datetime time_le_datetime].
  rewrite !filter_app; cbn [filter fst snd].
  apply Z.eqb_neq in H. rewrite H. reflexivity.
Qed.

Lemma flat_map_agree {A B : Type} (f g : A -> list B) l :
  (forall x, In x l -> f x = g x) -> flat_map f l = flat_map g l.
Proof.
  induction l as [|x r IH]; intro H; cbn; [reflexivity|].
  rewrite (H x (or_introl eq_refl)), IH; [reflexivity|].
  intros y Hy. apply H. now right.
Qed.

(** X7.  A heartbeat row whose [monitor_id] is the id of no monitor of the
    pass changes nothing of what the pass queries and emits, wherever it
    stands in the table and whatever the store makes of its time. *)
Theorem irrelevant_row_ignored
    (ms : list monitor) (pre post : list (Z * heartbeat))
    (ge le : heartbeat -> Z -> bool) (j : Z) (b : heartbeat)
    (completion : list monitor) (startTime endTime : Z) :
  ~ In j (map id completion) ->
  sendDowntimeStats
    {| monitor_table := ms; heartbeat_table := pre ++ (j, b) :: post;
       time_ge_datetime := ge; time_le_datetime := le |}
    completion startTime endTime
  = sendDowntimeStats
      {| monitor_table := ms; heartbeat_table := pre ++ post;
         time_ge_datetime := ge; time_le_datetime := le |}
      completion startTime endTime.
Proof.
  intro H. unfold sendDowntimeStats; cbn [monitor_table].
  rewrite !runCallbacks_eq.
  set (db1 := {| monitor_table := ms; heartbeat_table := pre ++ (j, b) :: post;
                 time_ge_datetime := ge; time_le_datetime := le |}).
  set (db2 := {| monitor_table := ms; heartbeat_table := pre ++ post;
                 time_ge_datetime := ge; time_le_datetime := le |}).
  assert (Hq : forall m, In m completion ->
                beatsOf db1 startTime endTime m = beatsOf db2 startTime endTime m).
  { intros m Hm. unfold beatsOf. apply heartbeat_query_skip_row.
    intro E. apply H. rewrite E. now apply in_map. }
  rewrite (flat_map_agree
             (fun m => intervalsOf m (beatsOf db1 startTime endTime m) endTime)
             (fun m => intervalsOf m (beatsOf db2 startTime endTime m) endTime))
    by (intros m Hm; now rewrite Hq).
  rewrite (flat_map_agree
             (fun m => totalsOf m (beatsOf db1 startTime endTime m) endTime)
             (fun m => totalsOf m (beatsOf db2 startTime endTime m) endTime))
    by (intros m Hm; now rewrite Hq).
  reflexivity.
Qed.

Lemma irrelevant_row_ignored_witness :
  ~ In 3 (map id [monitorB; monitorA])
  /\ sendDowntimeStats
       {| monitor_table := [monitorA; monitorB];
          heartbeat_table :=
            [(1, beat 600000 0)] ++ (3, beat 900000 0) :: [(1, beat 1500000 1)];
          time_ge_datetime := millisText_ge;
          time_le_datetime := millisText_le |}
       [monitorB; monitorA] 0 3600000
     = sendDowntimeStats
         {| monitor_table := [monitorA; monitorB];
            heartbeat_table := [(1, beat 600000 0)] ++ [(1, beat 1500000 1)];
            time_ge_datetime := millisText_ge;
            time_le_datetime := millisText_le |}
         [monitorB; monitorA] 0 3600000.
Proof.
  assert (H : ~ In 3 (map id [monitorB; monitorA]))
    by (cbn; intuition discriminate).
  split; [exact H|].
  exact (irrelevant_row_ignored [monitorA; monitorB] [(1, beat 600000 0)]
           [(1, beat 1500000 1)] millisText_ge millisText_le 3 (beat 900000 0)
           [monitorB; monitorA] 0 3600000 H).
Defined.

(** The comparisons of SQLite cut both bounds to the second: a row before a
    [startTime] of 00:10:00.900 but in its second is returned, and with a
    column written to the millisecond a row in the second of [endTime] is
    not. *)
Example bounds_cut_to_the_second :
  map time
    (heartbeat_query
       {| monitor_table := [monitorA];
          heartbeat_table :=
            [ (1, beat 600500 0); (1, beat 3600000 1); (1, beat 3599999 1) ];
          time_ge_datetime := millisText_ge;
          time_le_datetime := millisText_le |}
       1 600900 3600000)
  = [600500; 3599999].
Proof. reflexivity. Qed.

(** * The heartbeat lists *)

Section LatestFirst.

Context {A : Type} (timeOf : A -> Z).

Lemma insertByTimeDesc_In x l y :
  In y (insertByTimeDesc timeOf x l) <-> y = x \/ In y l.
Proof.
  induction l as [|z r IH]; cbn.
  - intuition congruence.
  - destruct (timeOf z <=? timeOf x); cbn; rewrite ?IH; intuition congruence.
Qed.

Lemma insertByTimeDesc_sorted x l :
  StronglySorted (fun x y => timeOf y <= timeOf x) l ->
  StronglySorted (fun x y => timeOf y <= timeOf x) (insertByTimeDesc timeOf x l).
Proof.
  induction l as [|z r IH]; intro Hs; cbn.
  - repeat constructor.
  - apply StronglySorted_inv in Hs. destruct Hs as [Hr Hz].
    destruct (Z.leb_spec (timeOf z) (timeOf x)) as [Hle|Hlt].
    + constructor; [now constructor|].
      constructor; [exact Hle|].
      eapply Forall_impl; [|exact Hz]. cbn; intros; lia.
    + constructor; [now apply IH|].
      apply Forall_forall. intros y Hy. apply insertByTimeDesc_In in Hy.
      destruct Hy as [-> | Hy]; [lia|].
      rewrite Forall_forall in Hz. now apply Hz.
Qed.

Lemma insertByTimeDesc_perm x l :
  Permutation (insertByTimeDesc timeOf x l) (x :: l).
Proof.
  induction l as [|z r IH]; cbn; [reflexivity|].
  destruct (timeOf z <=? timeOf x); [reflexivity|].
  rewrite IH. apply perm_swap.
Qed.

Lemma orderByTimeDesc_sorted l :
  StronglySorted (fun x y => timeOf y <= timeOf x) (orderByTimeDesc timeOf l).
Proof.
  unfold orderByTimeDesc.
  induction l as [|x r IH]; cbn [fold_right]; [constructor|].
  now apply insertByTimeDesc_sorted.
Qed.

Lemma orderByTimeDesc_perm l : Permutation (orderByTimeDesc timeOf l) l.
Proof.
  unfold orderByTimeDesc.
  induction l as [|x r IH]; cbn [fold_right]; [reflexivity|].
  rewrite insertByTimeDesc_perm. now constructor.
Qed.

Lemma orderByTimeDesc_In l x : In x (orderByTimeDesc timeOf l) <-> In x l.
Proof.
  split; apply Permutation_in;
    [apply orderByTimeDesc_perm | symmetry; apply orderByTimeDesc_perm].
Qed.

End LatestFirst.

Section SortedLists.

Context {A : Type} (R : A -> A -> Prop).

Lemma StronglySorted_app_inv (l1 l2 : list A) :
  StronglySorted R (l1 ++ l2) ->
  StronglySorted R l1
  /\ forall x y, In x l1 -> In y l2 -> R x y.
Proof.
  induction l1 as [|a r IH]; cbn; intro Hs.
  - split; [constructor | intros x y []].
  - apply StronglySorted_inv in Hs. destruct Hs as [Hr Ha].
    destruct (IH Hr) as [Hr1 Hcross]. split.
    + constructor; [exact Hr1|].
      apply Forall_app in Ha. tauto.
    + intros x y [<- | Hx] Hy; [|now apply Hcross].
      rewrite Forall_forall in Ha. apply Ha, in_or_app. now right.
Qed.

Lemma StronglySorted_app (l1 l2 : list A) :
  StronglySorted R l1 -> StronglySorted R l2 ->
  (forall x y, In x l1 -> In y l2 -> R x y) ->
  StronglySorted R (l1 ++ l2).
Proof.
  induction l1 as [|a r IH]; cbn; intros H1 H2 Hcross; [exact H2|].
  apply StronglySorted_inv in H1. destruct H1 as [Hr Ha].
  constructor.
  - apply IH; auto.
  - apply Forall_app. split; [exact Ha|].
    apply Forall_forall. intros y Hy. apply Hcross; auto.
Qed.

End SortedLists.

Lemma StronglySorted_rev {A : Type} (R : A -> A -> Prop) (l : list A) :
  StronglySorted R l -> StronglySorted (fun x y => R y x) (rev l).
Proof.
  induction l as [|a r IH]; cbn; intro Hs; [constructor|].
  apply StronglySorted_inv in Hs. destruct Hs as [Hr Ha].
  apply StronglySorted_app.
  - now apply IH.
  - repeat constructor.
  - intros x y Hx [<- | []]. apply in_rev in Hx.
    rewrite Forall_forall in Ha. now apply Ha.
Qed.

Lemma firstn_skipn_sorted {A : Type} (R : A -> A -> Prop) (l : list A) n :
  StronglySorted R l ->
  StronglySorted R (firstn n l)
  /\ forall x y, In x (firstn n l) -> In y (skipn n l) -> R x y.
Proof.
  intro Hs. apply StronglySorted_app_inv. now rewrite firstn_skipn.
Qed.

Lemma in_firstn {A : Type} (l : list A) n x : In x (firstn n l) -> In x l.
Proof.
  intro H. rewrite <- (firstn_skipn n l). apply in_or_app. now left.
Qed.

Lemma in_firstn_or_skipn {A : Type} (l : list A) n x :
  In x l -> In x (firstn n l) \/ In x (skipn n l).
Proof.
  intro H. rewrite <- (firstn_skipn n l) in H. now apply in_app_or.
Qed.

Lemma skipn_nonempty_length {A : Type} (l : list A) n x :
  In x (skipn n l) -> List.length (firstn n l) = n.
Proof.
  intro H. apply firstn_length_le.
  destruct (Nat.le_gt_cases n (List.length l)) as [Hle | Hgt]; [exact Hle|].
  rewrite skipn_all2 in H by lia. destruct H.
Qed.

(** ** [sendHeartbeatList] *)

Lemma monitorBeats_In db monitorID b :
  In b (monitorBeats db monitorID) <-> In (monitorID, b) (heartbeat_table db).
Proof.
  unfold monitorBeats. rewrite in_map_iff. split.
  - intros ([k b'] & Hb & Hin). cbn [snd] in Hb. subst b'.
    apply filter_In in Hin. cbn [fst] in Hin. destruct Hin as [Hin Hk].
    apply Z.eqb_eq in Hk. now subst k.
  - intro Hin. exists (monitorID, b). split; [reflexivity|].
    apply filter_In. split; [exact Hin | apply Z.eqb_refl].
Qed.

Lemma hl_result_eq db socket monitorID toUser overwrite :
  hl_result (sendHeartbeatList db socket monitorID toUser overwrite)
  = rev (firstn 100 (orderByTimeDesc time (monitorBeats db monitorID))).
Proof. unfold sendHeartbeatList. now destruct toUser. Qed.

(** X10.  The heartbeat list sent for a monitor holds at most 100 heartbeats, all
    of that monitor, oldest first; it goes to the socket alone, or to every
    socket of the user when [toUser] is set, with the monitor id and the
    [overwrite] flag as given. *)
Theorem heartbeat_list_bounded_ascending
    (db : Database) (socket : socket) (monitorID : Z)
    (toUser overwrite : bool) :
  let msg := sendHeartbeatList db socket monitorID toUser overwrite in
  (List.length (hl_result msg) <= 100)%nat
  /\ ascending (hl_result msg)
  /\ (forall b, In b (hl_result msg) ->
                In (monitorID, b) (heartbeat_table db))
  /\ hl_destination msg
     = (if toUser then ToUser (userID socket) else ToSocket)
  /\ hl_monitorID msg = monitorID
  /\ hl_overwrite msg = overwrite.
Proof.
  intro msg. unfold msg. rewrite hl_result_eq.
  split; [rewrite length_rev; apply firstn_le_length|].
  split.
  { apply (StronglySorted_rev (fun x y => time y <= time x)).
    apply firstn_skipn_sorted, orderByTimeDesc_sorted. }
  split.
  { intros b Hb. apply in_rev, in_firstn in Hb.
    apply orderByTimeDesc_In in Hb. now apply monitorBeats_In. }
  unfold sendHeartbeatList. now destruct toUser.
Qed.

(** X11.  The list holds the latest heartbeats of the monitor: a heartbeat of the
    monitor that is not in it is no later than any heartbeat in it, and is
    left out only when the list is full. *)
Theorem heartbeat_list_latest
    (db : Database) (socket : socket) (monitorID : Z)
    (toUser overwrite : bool) (b' : heartbeat) :
  In (monitorID, b') (heartbeat_table db) ->
  let msg := sendHeartbeatList db socket monitorID toUser overwrite in
  In b' (hl_result msg)
  \/ (List.length (hl_result msg) = 100%nat
      /\ forall b, In b (hl_result msg) -> time b' <= time b).
Proof.
  intros Hin msg. unfold msg. rewrite hl_result_eq.
  apply monitorBeats_In, (orderByTimeDesc_In time) in Hin.
  destruct (in_firstn_or_skipn _ 100 _ Hin) as [H | H].
  - left. now apply in_rev in H.
  - right. split.
    + rewrite length_rev. eapply skipn_nonempty_length; eauto.
    + intros b Hb. apply in_rev in Hb.
      destruct (firstn_skipn_sorted (fun x y => time y <= time x)
                  (orderByTimeDesc time (monitorBeats db monitorID)) 100
                  (orderByTimeDesc_sorted time _)) as [_ Hcross].
      now apply Hcross.
Qed.

Lemma heartbeat_list_latest_witness :
  In (1, beat 900000 0) (heartbeat_table demoDb)
  /\ let msg := sendHeartbeatList demoDb {| userID := 7 |} 1 false true in
     (In (beat 900000 0) (hl_result msg)
      \/ (List.length (hl_result msg) = 100%nat
          /\ forall b, In b (hl_result msg) -> time (beat 900000 0) <= time b)).
Proof.
  assert (H : In (1, beat 900000 0) (heartbeat_table demoDb))
    by (cbn; auto 10).
  split; [exact H|].
  exact (heartbeat_list_latest demoDb {| userID := 7 |} 1 false true
           (beat 900000 0) H).
Defined.

(** X12.  When the monitor has at most 100 heartbeats the list holds every one of
    them, each as many times as the table does. *)
Theorem heartbeat_list_complete
    (db : Database) (socket : socket) (monitorID : Z)
    (toUser overwrite : bool) :
  (List.length (monitorBeats db monitorID) <= 100)%nat ->
  Permutation
    (hl_result (sendHeartbeatList db socket monitorID toUser overwrite))
    (monitorBeats db monitorID).
Proof.
  intro Hlen. rewrite hl_result_eq, <- Permutation_rev.
  rewrite firstn_all2.
  - apply orderByTimeDesc_perm.
  - now rewrite (Permutation_length (orderByTimeDesc_perm time _)).
Qed.

Lemma heartbeat_list_complete_witness :
  (List.length (monitorBeats demoDb 1) <= 100)%nat
  /\ Permutation
       (hl_result (sendHeartbeatList demoDb {| userID := 7 |} 1 true false))
       (monitorBeats demoDb 1).
Proof.
  assert (H : (List.length (monitorBeats demoDb 1) <= 100)%nat)
    by (cbn; lia).
  split; [exact H|].
  exact (heartbeat_list_complete demoDb {| userID := 7 |} 1 true false H).
Defined.

Example heartbeat_list_example :
  map time (hl_result (sendHeartbeatList demoDb {| userID := 7 |} 1 false false))
  = [60000; 600000; 900000; 1500000; 3000000].
Proof. reflexivity. Qed.

(** ** [sendImportantHeartbeatList] *)

Lemma ihl_list_eq table socket monitorID toUser overwrite :
  ihl_list (sendImportantHeartbeatList table socket monitorID toUser overwrite)
  = importantHeartbeatQuery table monitorID.
Proof. unfold sendImportantHeartbeatList. now destruct toUser. Qed.

Lemma importantHeartbeatQuery_In table monitorID b :
  In b (importantHeartbeatQuery table monitorID) ->
  In b table /\ Bean.monitor_id b = monitorID /\ Bean.important b = 1.
Proof.
  unfold importantHeartbeatQuery. intro H.
  apply in_firstn, orderByTimeDesc_In, filter_In in H.
  destruct H as [Hin Hb]. apply andb_true_iff in Hb.
  rewrite !Z.eqb_eq in Hb. tauto.
Qed.

(** X13.  The important heartbeat list sent for a monitor holds at most 500 beans,
    all of that monitor and all flagged important, latest first: unlike the
    heartbeat list it is not reversed. *)
Theorem important_list_bounded_descending
    (table : list Bean.heartbeat) (socket : socket) (monitorID : Z)
    (toUser overwrite : bool) :
  let msg :=
    sendImportantHeartbeatList table socket monitorID toUser overwrite in
  (List.length (ihl_list msg) <= 500)%nat
  /\ StronglySorted (fun x y => Bean.time y <= Bean.time x) (ihl_list msg)
  /\ (forall b, In b (ihl_list msg) ->
                In b table /\ Bean.monitor_id b = monitorID
                /\ Bean.important b = 1)
  /\ ihl_destination msg
     = (if toUser then ToUser (userID socket) else ToSocket)
  /\ ihl_monitorID msg = monitorID
  /\ ihl_overwrite msg = overwrite.
Proof.
  intro msg. unfold msg. rewrite ihl_list_eq.
  split; [apply firstn_le_length|].
  split; [apply firstn_skipn_sorted, orderByTimeDesc_sorted|].
  split; [intro b; apply importantHeartbeatQuery_In|].
  unfold sendImportantHeartbeatList. now destruct toUser.
Qed.

(** X14.  An important heartbeat of the monitor that is not in the list is no
    later than any bean in it, and is left out only when the list holds 500
    beans; a heartbeat that is not flagged important is never in it. *)
Theorem important_list_latest
    (table : list Bean.heartbeat) (socket : socket) (monitorID : Z)
    (toUser overwrite : bool) (b' : Bean.heartbeat) :
  In b' table ->
  Bean.monitor_id b' = monitorID ->
  let msg :=
    sendImportantHeartbeatList table socket monitorID toUser overwrite in
  (Bean.important b' <> 1 -> ~ In b' (ihl_list msg))
  /\ (Bean.important b' = 1 ->
      In b' (ihl_list msg)
      \/ (List.length (ihl_list msg) = 500%nat
          /\ forall b, In b (ihl_list msg) -> Bean.time b' <= Bean.time b)).
Proof.
  intros Hin Hm msg. unfold msg. rewrite ihl_list_eq. split.
  - intros Hni Hb. apply importantHeartbeatQuery_In in Hb. tauto.
  - intro Himp. unfold importantHeartbeatQuery.
    set (rows := filter _ table).
    assert (Hrows : In b' (orderByTimeDesc Bean.time rows)).
    { apply orderByTimeDesc_In, filter_In. split; [exact Hin|].
      rewrite Hm, Himp. now rewrite !Z.eqb_refl. }
    destruct (in_firstn_or_skipn _ 500 _ Hrows) as [H | H]; [now left|].
    right. split; [eapply skipn_nonempty_length; eauto|].
    intros b Hb.
    destruct (firstn_skipn_sorted (fun x y => Bean.time y <= Bean.time x)
                (orderByTimeDesc Bean.time rows) 500
                (orderByTimeDesc_sorted Bean.time _)) as [_ Hcross].
    now apply Hcross.
Qed.

Lemma important_list_latest_witness :
  In {| Bean.monitor_id := 1; Bean.important := 1; Bean.time := 600000;
        Bean.status := 0 |} importantTable
  /\ Bean.monitor_id
       {| Bean.monitor_id := 1; Bean.important := 1; Bean.time := 600000;
          Bean.status := 0 |} = 1
  /\ let msg :=
       sendImportantHeartbeatList importantTable {| userID := 7 |} 1 false
         false in
     (Bean.important
        {| Bean.monitor_id := 1; Bean.important := 1; Bean.time := 600000;
           Bean.status := 0 |} <> 1 ->
      ~ In {| Bean.monitor_id := 1; Bean.important := 1; Bean.time := 600000;
              Bean.status := 0 |} (ihl_list msg))
     /\ (Bean.important
           {| Bean.monitor_id := 1; Bean.important := 1; Bean.time := 600000;
              Bean.status := 0 |} = 1 ->
         In {| Bean.monitor_id := 1; Bean.important := 1; Bean.time := 600000;
               Bean.status := 0 |} (ihl_list msg)
         \/ (List.length (ihl_list msg) = 500%nat
             /\ forall b, In b (ihl_list msg) -> 600000 <= Bean.time b)).
Proof.
  assert (H : In {| Bean.monitor_id := 1; Bean.important := 1;
                    Bean.time := 600000; Bean.status := 0 |} importantTable)
    by (cbn; auto).
  split; [exact H|]. split; [reflexivity|].
  exact (important_list_latest importantTable {| userID := 7 |} 1 false false
           _ H eq_refl).
Defined.

Example important_list_example :
  map Bean.time
    (ihl_list
       (sendImportantHeartbeatList importantTable {| userID := 7 |} 1 false
          false))
  = [1500000; 600000].
Proof. reflexivity. Qed.

(** ** [sendNotificationList] *)

Lemma fold_push_map {A B : Type} (f : A -> B) l : forall acc,
  fold_left (fun result x => push result (f x)) l acc = acc ++ map f l.
Proof.
  induction l as [|x r IH]; intro acc; cbn [fold_left map].
  - now rewrite app_nil_r.
  - rewrite IH. unfold push. now rewrite <- app_assoc.
Qed.

(** X15.  The notification list is emitted to the user of the socket and holds, in
    the order of the query, one object for each notification of that user
    and none of another user; a flag of an object is [true] exactly when the
    column is 1; the beans themselves are returned. *)
Theorem notification_list_of_user
    (table : list Notification.bean) (socket : socket) :
  let '((dest, result), list) := sendNotificationList table socket in
  dest = ToUser (userID socket)
  /\ result = map notificationObject list
  /\ (forall bean, In bean list <->
                   In bean table /\ Notification.user_id bean = userID socket)
  /\ (forall o, In o result -> Notification.o_user_id o = userID socket)
  /\ (forall bean,
        (Notification.o_isDefault (notificationObject bean) = true
         <-> Notification.isDefault bean = 1)
        /\ (Notification.o_active (notificationObject bean) = true
            <-> Notification.active bean = 1)).
Proof.
  unfold sendNotificationList. rewrite fold_push_map; cbn [app].
  split; [reflexivity|]. split; [reflexivity|]. split.
  { intro bean. rewrite filter_In, Z.eqb_eq. tauto. }
  split.
  { intros o Ho. apply in_map_iff in Ho. destruct Ho as (bean & <- & Hb).
    apply filter_In in Hb. destruct Hb as [_ Hb]. now apply Z.eqb_eq in Hb. }
  intro bean. unfold notificationObject; cbn. now rewrite !Z.eqb_eq.
Qed.

(** * [formatTime] below a hundred hours *)

Lemma formatTime_fields (t : Q) :
  (0 <= t)%Q ->
  formatTime t =
    (Js.padStart 2 "0" (Js.String_ (Qfloor t / 3600)) ++ ":"
       ++ twoDigits ((Qfloor t mod 3600) / 60) ++ ":"
       ++ twoDigits (Qfloor t mod 60))%string.
Proof.
  intro Ht. unfold formatTime, Js.Math_floor.
  rewrite (Qfloor_div_pos t 3600), (Qfloor_div_pos _ 60).
  rewrite (Qfloor_rem_pos t 3600 Ht), (Qfloor_rem_pos t 60 Ht).
  rewrite (pad2_twoDigits ((Qfloor t mod 3600) / 60)),
          (pad2_twoDigits (Qfloor t mod 60)).
  - reflexivity.
  - pose proof (seconds_range (Qfloor t)). lia.
  - pose proof (minutes_range (Qfloor t)). lia.
Qed.

Lemma twoDigits_table :
  forallb
    (fun i =>
       match twoDigits (Z.of_nat i) with
       | String c1 (String c2 EmptyString) =>
           10 * digitValue c1 + digitValue c2 =? Z.of_nat i
       | _ => false
       end)
    (seq 0 100) = true.
Proof. vm_compute. reflexivity. Qed.

Lemma twoDigits_value (k : Z) :
  0 <= k < 100 ->
  exists c1 c2,
    twoDigits k = String c1 (String c2 EmptyString)
    /\ 10 * digitValue c1 + digitValue c2 = k.
Proof.
  intro Hk. pose proof twoDigits_table as H. rewrite forallb_forall in H.
  specialize (H (Z.to_nat k)). rewrite Z2Nat.id in H by lia.
  unfold twoDigits in *. eexists; eexists. split; [reflexivity|].
  apply Z.eqb_eq, H, in_seq. lia.
Qed.

Lemma clock_decompose (n : Z) :
  3600 * (n / 3600) + 60 * ((n mod 3600) / 60) + n mod 60 = n.
Proof.
  pose proof (Z.div_mod n 3600 ltac:(lia)) as H1.
  pose proof (Z.div_mod (n mod 3600) 60 ltac:(lia)) as H2.
  assert (H3 : (n mod 3600) mod 60 = n mod 60).
  { change 3600 with (60 * 60). rewrite Z.rem_mul_r by lia.
    rewrite (Z.mul_comm 60 ((n / 60) mod 60)), Z.mod_add by lia.
    apply Z.mod_mod. lia. }
  lia.
Qed.

Lemma clockSeconds_formatTime (t : Q) :
  (0 <= t)%Q -> Qfloor t < 360000 ->
  clockSeconds (formatTime t) = Some (Qfloor t)
  /\ String.length (formatTime t) = 8%nat.
Proof.
  intros Ht Hlt. rewrite (formatTime_fields t Ht).
  assert (Hn : 0 <= Qfloor t) by (apply (Qfloor_nonneg_le 0); exact Ht).
  assert (Hh : 0 <= Qfloor t / 3600 < 100).
  { split; [apply Z.div_pos; lia|]. apply Z.div_lt_upper_bound; lia. }
  rewrite (pad2_twoDigits _ Hh).
  destruct (twoDigits_value _ Hh) as (h1 & h2 & Eh & Vh).
  destruct (twoDigits_value ((Qfloor t mod 3600) / 60)) as (m1 & m2 & Em & Vm).
  { pose proof (minutes_range (Qfloor t)). lia. }
  destruct (twoDigits_value (Qfloor t mod 60)) as (s1 & s2 & Es & Vs).
  { pose proof (seconds_range (Qfloor t)). lia. }
  rewrite Eh, Em, Es. cbn [append clockSeconds String.length].
  split; [|reflexivity].
  rewrite Vh, Vm, Vs. f_equal. apply clock_decompose.
Qed.

(** X9.  For durations from 0 to below 100 hours, [formatTime] gives eight
    characters, and two durations are formatted alike exactly when they have
    the same whole seconds: only the fraction of a second is lost. *)
Theorem formatTime_whole_seconds (t1 t2 : Q) :
  (0 <= t1)%Q -> (0 <= t2)%Q ->
  Qfloor t1 < 360000 -> Qfloor t2 < 360000 ->
  String.length (formatTime t1) = 8%nat
  /\ (formatTime t1 = formatTime t2 <-> Qfloor t1 = Qfloor t2).
Proof.
  intros H1 H2 L1 L2.
  destruct (clockSeconds_formatTime t1 H1 L1) as [C1 Len1].
  destruct (clockSeconds_formatTime t2 H2 L2) as [C2 _].
  split; [exact Len1|]. split.
  - intro E. rewrite E in C1. congruence.
  - intro E. rewrite (formatTime_fields t1 H1), (formatTime_fields t2 H2).
    now rewrite E.
Qed.

Lemma formatTime_whole_seconds_witness :
  (0 <= 3 # 2)%Q /\ (0 <= 19 # 10)%Q
  /\ Qfloor (3 # 2) < 360000 /\ Qfloor (19 # 10) < 360000
  /\ String.length (formatTime (3 # 2)) = 8%nat
  /\ (formatTime (3 # 2) = formatTime (19 # 10)
      <-> Qfloor (3 # 2) = Qfloor (19 # 10)).
Proof.
  assert (H1 : (0 <= 3 # 2)%Q) by (unfold Qle; cbn; lia).
  assert (H2 : (0 <= 19 # 10)%Q) by (unfold Qle; cbn; lia).
  assert (L1 : Qfloor (3 # 2) < 360000) by (cbn; lia).
  assert (L2 : Qfloor (19 # 10) < 360000) by (cbn; lia).
  split; [exact H1|]. split; [exact H2|]. split; [exact L1|].
  split; [exact L2|].
  exact (formatTime_whole_seconds (3 # 2) (19 # 10) H1 H2 L1 L2).
Defined.

(** * When an interval is closed at [endTime] *)

Lemma forEachBody_isDown monitor v b :
  isDown (fst (forEachBody monitor (v, []) b)) =
  if status b =? 0 then true
  else if status b =? 1 then false
  else isDown v.
Proof.
  destruct (forEachBody_cases monitor v b)
    as [(Hs & Ed & E) | [(Hs & Ed & E) | (H0 & H1 & E)]]; rewrite E;
    cbn [fst isDown opened closed].
  - now rewrite Hs.
  - now rewrite Hs.
  - destruct (Z.eqb_spec (status b) 0) as [E0|E0].
    + destruct H0; [contradiction | assumption].
    + destruct (Z.eqb_spec (status b) 1) as [E1|E1]; [|reflexivity].
      destruct H1; [contradiction | assumption].
Qed.

Lemma loop_isDown monitor heartbeats : forall v,
  isDown (fst (loop monitor heartbeats v)) =
  fold_left
    (fun down b =>
       if status b =? 0 then true else if status b =? 1 then false else down)
    heartbeats (isDown v).
Proof.
  induction heartbeats as [|b bs IH]; intro v; [reflexivity|].
  rewrite loop_cons; cbn [fst fold_left]. rewrite IH.
  now rewrite forEachBody_isDown.
Qed.

(** X8.  After the loop [isDown] is true exactly when the last heartbeat whose
    status is 0 or 1 has status 0, and exactly then [downTime] is not
    [null]; in that case and in no other the callback adds the interval that
    ends at [endTime]. *)
Theorem closed_at_endTime_iff
    (m : monitor) (heartbeats : list heartbeat) (endTime : Z) :
  let v := fst (loop m heartbeats initialLocals) in
  isDown v = lastIsDown heartbeats
  /\ (lastIsDown heartbeats = true <-> downTime v <> None)
  /\ intervalsOf m heartbeats endTime =
     snd (loop m heartbeats initialLocals)
       ++ (if lastIsDown heartbeats then [closing m v endTime] else []).
Proof.
  intro v.
  assert (Hd : isDown v = lastIsDown heartbeats)
    by apply (loop_isDown m heartbeats initialLocals).
  split; [exact Hd|]. split.
  - rewrite <- Hd. split.
    + apply (loop_keeps_downTime m heartbeats initialLocals).
      intro H; discriminate H.
    + intro Hn. destruct (isDown v) eqn:Ed; [reflexivity|].
      exfalso. apply Hn. unfold v in *. clear Hd Hn.
      assert (G : forall bs v0,
                (isDown v0 = false -> downTime v0 = None) ->
                isDown (fst (loop m bs v0)) = false ->
                downTime (fst (loop m bs v0)) = None).
      { induction bs as [|b bs IH]; intros v0 H0; [exact H0|].
        rewrite loop_cons; cbn [fst]. apply IH.
        destruct (forEachBody_cases m v0 b)
          as [(_ & _ & E) | [(_ & _ & E) | (_ & _ & E)]]; rewrite E; cbn;
          auto; discriminate. }
      apply G; auto.
  - rewrite <- Hd, intervalsOf_from. apply intervalsFrom_split.
Qed.


(** * C1: the total and the intervals of a monitor *)

(** No heartbeat of status 1 lies strictly inside an emitted interval. *)
Lemma intervalsFrom_no_up_inside monitor endTime heartbeats : forall v lo,
  ascending heartbeats ->
  Forall (fun b => lo <= time b <= endTime) heartbeats ->
  lo <= endTime ->
  openBefore v lo ->
  forall i b,
    In i (intervalsFrom monitor heartbeats endTime v) ->
    In b heartbeats -> status b = 1 ->
    ~ (downAt i < time b < upAt i).
Proof.
  induction heartbeats as [|b0 bs IH]; intros v lo Hasc Hwin Hle Hv i b Hi Hb Hs.
  - destruct Hb.
  - apply ascending_inv in Hasc. destruct Hasc as [Hasc Hhd].
    apply Forall_cons_iff in Hwin. destruct Hwin as [Hb0 Hwin].
    assert (Hwin' : Forall (fun x => time b0 <= time x <= endTime) bs).
    { rewrite Forall_forall in *. intros x Hx.
      specialize (Hhd x Hx). specialize (Hwin x Hx). lia. }
    assert (Hafter : forall v',
      isDown v' = false ->
      In i (intervalsFrom monitor bs endTime v') -> time b0 <= downAt i).
    { intros v' Hd' Hi'.
      pose proof (intervalsFrom_chained monitor endTime bs v' (time b0)
                    Hasc Hwin' (proj2 Hb0)) as Hc.
      rewrite Hd' in Hc.
      assert (Hc' : chained (time b0) (intervalsFrom monitor bs endTime v')).
      { apply Hc. intro H. congruence. }
      apply chained_lower in Hc'. rewrite Forall_forall in Hc'. now apply Hc'. }
    assert (Hlater : In b bs -> time b0 <= time b).
    { intro Hin. rewrite Forall_forall in Hhd. now apply Hhd. }
    rewrite intervalsFrom_cons in Hi.
    destruct (forEachBody_cases monitor v b0)
      as [(Hs0 & Ed & E) | [(Hs0 & Ed & E) | (H0 & H1 & E)]];
      rewrite E in Hi; cbn [fst snd app] in Hi.
    + destruct Hb as [<- | Hb]; [lia|].
      apply (IH (opened v b0) (time b0)); auto; try lia.
      intros _. exists (time b0). split; [reflexivity | lia].
    + destruct (Hv Ed) as (d & Hd & Hlo).
      destruct Hi as [<- | Hi].
      * unfold upAt; cbn [closing Downtime.upTime].
        destruct Hb as [<- | Hb]; [lia|]. specialize (Hlater Hb). lia.
      * destruct Hb as [<- | Hb].
        -- specialize (Hafter (closed v b0) eq_refl Hi). lia.
        -- apply (IH (closed v b0) (time b0)); auto; try lia.
           intros H; discriminate H.
    + destruct Hb as [<- | Hb].
      * destruct H1 as [H1 | H1]; [contradiction|].
        specialize (Hafter v H1 Hi). lia.
      * apply (IH v (time b0)); auto; try lia.
        intros Hd. destruct (Hv Hd) as (d & Hdt & Hlo).
        exists d. split; [assumption | lia].
Qed.

(** Three outages of 30, 282 and 688 milliseconds last one second together;
    the running sum of the three doubles is the double below 1, and the
    total is formatted as 00:00:00, not as the 00:00:01 of one second. *)
Lemma C1_counterexample :
  ascending roundingBeats
  /\ Forall (fun b => 0 <= time b <= 3000) roundingBeats
  /\ sumMs (intervalsOf monitorA roundingBeats 3000) = 1000
  /\ totalDowntime (finalLocals monitorA roundingBeats 3000)
     = (9007199254740991 # 9007199254740992)
  /\ ~ (totalDowntime (finalLocals monitorA roundingBeats 3000)
        == inject_Z 1000 / 1000)%Q
  /\ map Total.downTime (totalsOf monitorA roundingBeats 3000)
     = ["00:00:00"%string]
  /\ formatTime (inject_Z 1000 / 1000) = "00:00:01"%string.
Proof.
  split; [repeat constructor; cbn; lia|].
  split; [repeat constructor; cbn; lia|].
  split; [vm_compute; reflexivity|].
  assert (E : totalDowntime (finalLocals monitorA roundingBeats 3000)
              = (9007199254740991 # 9007199254740992))
    by (vm_compute; reflexivity).
  split; [exact E|]. split.
  - rewrite E. intro H. vm_compute in H. discriminate H.
  - split; vm_compute; reflexivity.
Qed.

(** C1, amended.  For every monitor of the pass, whatever the order in which
    the heartbeat queries complete, when the heartbeats returned for the
    monitor all lie between a time [lo] and [endTime]: the pass emits; the
    record of the monitor in the total-downtime sequence is the formatting
    of the callback's [totalDowntime]; that number is the running sum, in
    emission order and in doubles, of the doubles [(upAt - downAt) / 1000] of
    the monitor's intervals, and it is their exact sum in seconds when every
    interval lasts a whole number of seconds.  The intervals lie between
    [lo] and [endTime]; each one starts at or after the end of the one
    before; each one starts at a heartbeat of status 0 and ends at a
    heartbeat of status 1 or at [endTime], with no heartbeat of status 1
    strictly inside; and every heartbeat of status 0 lies in one of them. *)
Theorem C1_total_and_partition
    (db : Database) (completion : list monitor) (startTime endTime lo : Z)
    (m : monitor) :
  completionOrder db completion ->
  NoDup (map id (monitor_table db)) ->
  In m (monitor_table db) ->
  Forall (fun b => lo <= time b <= endTime)
    (heartbeat_query db (id m) startTime endTime) ->
  let heartbeats := heartbeat_query db (id m) startTime endTime in
  let total := totalDowntime (finalLocals m heartbeats endTime) in
  exists out,
    emitted (sendDowntimeStats db completion startTime endTime) = Some out
    /\ let mine :=
         filter (fun i => Downtime.monitor_id i =? id m) (downtimeStats out) in
       filter (fun t => Total.monitor_id t =? id m) (totalDowntimeStats out) =
         [ {| Total.monitor_id := id m;
              Total.monitor_name := name m;
              Total.monitor_url := url m;
              Total.downTime := formatTime total |} ]
       /\ total =
          fold_left
            (fun t i =>
               Js.add t
                 (Js.div (Js.sub (inject_Z (upAt i)) (inject_Z (downAt i)))
                    1000))
            mine 0%Q
       /\ (Forall (fun i => (upAt i - downAt i) mod 1000 = 0) mine ->
           endTime - lo < 2 ^ 53 ->
           total = inject_Z (sumMs mine / 1000)
           /\ 1000 * (sumMs mine / 1000) = sumMs mine)
       /\ chained lo mine
       /\ Forall (fun i => upAt i <= endTime) mine
       /\ (forall i, In i mine ->
           (exists b, In b heartbeats /\ status b = 0 /\ downAt i = time b)
           /\ (upAt i = endTime
               \/ exists b, In b heartbeats /\ status b = 1
                            /\ upAt i = time b))
       /\ (forall i b, In i mine -> In b heartbeats -> status b = 1 ->
           ~ (downAt i < time b < upAt i))
       /\ (forall b, In b heartbeats -> status b = 0 ->
           exists i, In i mine /\ downAt i <= time b <= upAt i).
Proof.
  intros Hperm Hnd Hin Hwin heartbeats total.
  exists (runCallbacks db completion startTime endTime).
  split; [apply emitted_sendDowntimeStats|].
  rewrite runCallbacks_eq; cbn [downtimeStats totalDowntimeStats].
  assert (Hnd' : NoDup (map id completion)).
  { eapply Permutation_NoDup; [|exact Hnd]. now apply Permutation_map. }
  assert (Hin' : In m completion) by (eapply Permutation_in; eauto).
  rewrite (filter_flat_map_key Downtime.monitor_id); auto.
  2:{ intros m' x. rewrite intervalsOf_from. apply intervalsFrom_id. }
  rewrite (filter_flat_map_key Total.monitor_id); auto.
  2:{ intros m' x. rewrite totalsOf_eq. now intros [<- | []]. }
  fold (beatsOf db startTime endTime m).
  change (beatsOf db startTime endTime m) with heartbeats.
  assert (Hasc : ascending heartbeats) by apply heartbeat_query_order.
  fold heartbeats in Hwin.
  destruct (intervalsOf_partition m heartbeats lo endTime Hasc Hwin)
    as (Hc & Hup & Hcover).
  split; [apply totalsOf_eq|].
  split; [apply finalLocals_total|].
  split.
  { intros Hmod Hlt. unfold total. rewrite finalLocals_total.
    destruct heartbeats as [|b0 bs] eqn:Eh.
    - rewrite intervalsOf_from, intervalsFrom_nil. cbn. auto.
    - apply (sumSeconds_exact _ lo endTime); auto.
      apply Forall_cons_iff in Hwin. lia. }
  split; [exact Hc|]. split; [exact Hup|]. split; [|split; [|exact Hcover]].
  - intros i Hi. rewrite intervalsOf_from in Hi.
    destruct (intervalsFrom_shape m endTime _ initialLocals i Hi)
      as (_ & _ & Hdown & Hu).
    split; [|exact Hu].
    destruct Hdown as [[Hd _] | (b & Hb & Hs & Hdt)]; [discriminate Hd|].
    exists b. split; [exact Hb|]. split; [exact Hs|].
    unfold downAt. now rewrite Hdt.
  - intros i b Hi Hb Hs. rewrite intervalsOf_from in Hi.
    destruct heartbeats as [|b0 bs] eqn:Eh; [destruct Hb|].
    apply (intervalsFrom_no_up_inside m endTime (b0 :: bs) initialLocals lo);
      auto.
    + apply Forall_cons_iff in Hwin. lia.
    + intro H; discriminate H.
Qed.

Lemma C1_total_and_partition_witness :
  completionOrder demoDb [monitorB; monitorA]
  /\ NoDup (map id (monitor_table demoDb))
  /\ In monitorA (monitor_table demoDb)
  /\ Forall (fun b => 0 <= time b <= 3600000)
       (heartbeat_query demoDb (id monitorA) 0 3600000)
  /\ let heartbeats := heartbeat_query demoDb (id monitorA) 0 3600000 in
     let total := totalDowntime (finalLocals monitorA heartbeats 3600000) in
     exists out,
       emitted (sendDowntimeStats demoDb [monitorB; monitorA] 0 3600000)
         = Some out
       /\ let mine :=
            filter (fun i => Downtime.monitor_id i =? id monitorA)
              (downtimeStats out) in
          filter (fun t => Total.monitor_id t =? id monitorA)
            (totalDowntimeStats out) =
            [ {| Total.monitor_id := id monitorA;
                 Total.monitor_name := name monitorA;
                 Total.monitor_url := url monitorA;
                 Total.downTime := formatTime total |} ]
          /\ total =
             fold_left
               (fun t i =>
                  Js.add t
                    (Js.div (Js.sub (inject_Z (upAt i)) (inject_Z (downAt i)))
                       1000))
               mine 0%Q
          /\ (Forall (fun i => (upAt i - downAt i) mod 1000 = 0) mine ->
              3600000 - 0 < 2 ^ 53 ->
              total = inject_Z (sumMs mine / 1000)
              /\ 1000 * (sumMs mine / 1000) = sumMs mine)
          /\ chained 0 mine
          /\ Forall (fun i => upAt i <= 3600000) mine
          /\ (forall i, In i mine ->
              (exists b, In b heartbeats /\ status b = 0 /\ downAt i = time b)
              /\ (upAt i = 3600000
                  \/ exists b, In b heartbeats /\ status b = 1
                               /\ upAt i = time b))
          /\ (forall i b, In i mine -> In b heartbeats -> status b = 1 ->
              ~ (downAt i < time b < upAt i))
          /\ (forall b, In b heartbeats -> status b = 0 ->
              exists i, In i mine /\ downAt i <= time b <= upAt i).
Proof.
  assert (Hperm : completionOrder demoDb [monitorB; monitorA])
    by apply perm_swap.
  assert (Hnd : NoDup (map id (monitor_table demoDb))).
  { cbn. repeat constructor; cbn; intuition discriminate. }
  assert (Hin : In monitorA (monitor_table demoDb)) by (cbn; auto).
  assert (Hwin : Forall (fun b => 0 <= time b <= 3600000)
                   (heartbeat_query demoDb (id monitorA) 0 3600000))
    by (change (heartbeat_query demoDb (id monitorA) 0 3600000)
          with [beat 60000 1; beat 600000 0; beat 900000 0; beat 1500000 1;
                beat 3000000 0];
        repeat constructor; cbn; lia).
  split; [exact Hperm|]. split; [exact Hnd|]. split; [exact Hin|].
  split; [exact Hwin|].
  exact (C1_total_and_partition demoDb [monitorB; monitorA] 0 3600000 0
           monitorA Hperm Hnd Hin Hwin).
Defined.

(** With a [startTime] of 00:10:00.900 the heartbeat of 00:10:00.500 is
    returned, and the interval it opens starts before [startTime]: the
    intervals lie after the earliest returned heartbeat, not after
    [startTime]. *)
Example interval_before_startTime :
  map (fun i => (downAt i, upAt i))
    (intervalsOf monitorA
       (heartbeat_query
          {| monitor_table := [monitorA];
             heartbeat_table := [(1, beat 600500 0); (1, beat 900000 1)];
             time_ge_datetime := millisText_ge;
             time_le_datetime := millisText_le |}
          1 600900 3600000)
       3600000)
  = [(600500, 900000)].
Proof. reflexivity. Qed.

(** The [duration] strings are each rounded down to the second: two outages
    of a second and a half are shown as 00:00:01 each and their total as
    00:00:03. *)
Example formatted_durations_round_down :
  let out :=
    monitorTask monitorA
      [beat 1000 0; beat 2500 1; beat 4000 0; beat 5500 1] 10000 noArrays in
  map Downtime.duration (downtimeStats out) = ["00:00:01"; "00:00:01"]%string
  /\ map Total.downTime (totalDowntimeStats out) = ["00:00:03"%string].
Proof. vm_compute. repeat split; reflexivity. Qed.
